(** * personalweb-next: the contact relay, the contact form and the
      active-section coordination, embedded from the TypeScript sources.

    - [JS]      the fragment of JavaScript values the handlers touch:
                strings as UTF-16 code units, [String.prototype.trim],
                JSON values, property reads, [ToString].
    - [Relay]   [src/app/api/contact/route.ts]: the [POST] handler.
    - [Contact] [src/components/ContactSection.tsx]: [handleSubmit],
                [handleChange], the submit button and the form's events.
    - [Nav]     the page [App] with its [activeSection] state, the sections'
                IntersectionObserver callbacks and [LeftNav.scrollToSection].
    - [Page]    the page as [App] wires it: the four sections with their ids,
                the entries of [navItems], the drawer, and the page's events.
    - [Image]   [src/components/ImageWithFallback.tsx]: the image loader and
                the error handler of the next/image variant. *)

From Stdlib Require Import String Ascii List NArith Bool Arith Lia DecimalString.
Import ListNotations.

Set Implicit Arguments.

(* ------------------------------------------------------------------ *)
(** ** JavaScript values *)
(* ------------------------------------------------------------------ *)
Module JS.

(** A JavaScript string is a sequence of 16-bit code units. *)
Definition jsstring : Type := list N.

(** An ASCII literal of the source, as code units. *)
Definition lit (s : string) : jsstring :=
  map N_of_ascii (list_ascii_of_string s).

Fixpoint eqb (s t : jsstring) : bool :=
  match s, t with
  | [], [] => true
  | a :: s', b :: t' => N.eqb a b && eqb s' t'
  | _, _ => false
  end.

(** ECMAScript WhiteSpace and LineTerminator code points: what
    [String.prototype.trim] strips. All of them lie in the BMP, so the test
    is on single code units. *)
Definition isWhiteSpace (c : N) : bool :=
  (N.eqb c 9)        (* TAB *)
  || (N.eqb c 10)    (* LF *)
  || (N.eqb c 11)    (* VT *)
  || (N.eqb c 12)    (* FF *)
  || (N.eqb c 13)    (* CR *)
  || (N.eqb c 32)    (* SPACE *)
  || (N.eqb c 160)   (* NO-BREAK SPACE *)
  || (N.eqb c 5760)  (* U+1680 *)
  || (N.leb 8192 c && N.leb c 8202) (* U+2000 .. U+200A *)
  || (N.eqb c 8232)  (* U+2028 LINE SEPARATOR *)
  || (N.eqb c 8233)  (* U+2029 PARAGRAPH SEPARATOR *)
  || (N.eqb c 8239)  (* U+202F *)
  || (N.eqb c 8287)  (* U+205F *)
  || (N.eqb c 12288) (* U+3000 *)
  || (N.eqb c 65279) (* U+FEFF *).

Fixpoint trimStart (s : jsstring) : jsstring :=
  match s with
  | [] => []
  | c :: r => if isWhiteSpace c then trimStart r else s
  end.

Definition trimEnd (s : jsstring) : jsstring := rev (trimStart (rev s)).

(** [s.trim()] *)
Definition trim (s : jsstring) : jsstring := trimEnd (trimStart s).

(** JSON values, as [JSON.parse] / [request.json()] / [response.json()]
    deliver them. Nothing in this program computes with a JSON number, so a
    number is carried by its canonical rendering (the result of
    Number::toString). An object keeps its members in source order. *)
#[warnings="-register-all"]
Inductive json : Type :=
| JNull
| JBool (b : bool)
| JNumber (rendering : jsstring)
| JString (s : jsstring)
| JArray (items : list json)
| JObject (members : list (jsstring * json)).

(** Own-property lookup; with a duplicated key [JSON.parse] keeps the last. *)
Fixpoint lookup (k : jsstring) (members : list (jsstring * json)) : option json :=
  match members with
  | [] => None
  | (k', v) :: rest =>
      match lookup k rest with
      | Some w => Some w
      | None => if eqb k k' then Some v else None
      end
  end.

(** The outcome of reading property [k] of a value, for the property names
    this program reads ([name], [email], [message], [error]): none of them
    is defined on Object.prototype, on the primitive wrappers or on
    Array.prototype, so only an object's own members can answer.
    [None] is [undefined]. Reading a property of [null] throws. *)
Inductive read : Type :=
| Value (v : option json)
| ThrowsTypeError.

Definition getProp (j : json) (k : jsstring) : read :=
  match j with
  | JNull => ThrowsTypeError
  | JObject members => Value (lookup k members)
  | _ => Value None
  end.

(** ToString on a JSON value (what [new Error(v)] stores as its message). *)
Fixpoint ToString (j : json) : jsstring :=
  match j with
  | JNull => lit "null"
  | JBool true => lit "true"
  | JBool false => lit "false"
  | JNumber r => r
  | JString s => s
  | JArray items =>
      (* Array.prototype.join: null elements render as the empty string *)
      (fix join (l : list json) : jsstring :=
         match l with
         | [] => []
         | x :: rest =>
             (match x with JNull => [] | _ => ToString x end)
               ++ match rest with [] => [] | _ => lit "," ++ join rest end
         end) items
  | JObject _ => lit "[object Object]"
  end.

End JS.

(* ------------------------------------------------------------------ *)
(** ** The contact relay endpoint: src/app/api/contact/route.ts *)
(* ------------------------------------------------------------------ *)
Module Relay.
Import JS.

(** [process.env]: a variable is a string or [undefined]. *)
Record Env : Type := {
  RESEND_API_KEY : option jsstring;
  RESEND_FROM_EMAIL : option jsstring;
  CONTACT_TO_EMAIL : option jsstring
}.

(** [const FROM_EMAIL = process.env.RESEND_FROM_EMAIL] *)
Definition FROM_EMAIL (env : Env) : option jsstring := RESEND_FROM_EMAIL env.

(** [const TO_EMAIL = process.env.CONTACT_TO_EMAIL ?? FROM_EMAIL] *)
Definition TO_EMAIL (env : Env) : option jsstring :=
  match CONTACT_TO_EMAIL env with
  | Some t => Some t
  | None => FROM_EMAIL env
  end.

(** [!s] on a [string | undefined]: true on [undefined] and on the empty
    string. *)
Definition isFalsy (s : option jsstring) : bool :=
  match s with
  | None | Some [] => true
  | Some (_ :: _) => false
  end.

(** The argument of [resend.emails.send]. *)
Record Email : Type := {
  from : jsstring;
  to : jsstring;
  replyTo : jsstring;
  subject : jsstring;
  text : jsstring
}.

(** What a [catch] of the handler can receive. *)
Inductive Raised : Type :=
| SyntaxError   (* request.json() on a body that is not JSON *)
| TypeError     (* a property of null, or a call of a non-function *)
| SendRejected  (* the promise of resend.emails.send rejected *).

(** Observable effects of one run of the handler, oldest first. *)
Inductive Effect : Type :=
| EmailsSend (e : Email)
| ConsoleError (r : Raised).

Record Response : Type := {
  status : N;
  body : json
}.

(** [NextResponse.json(data, { status })]; the status defaults to 200. *)
Definition NextResponse_json (data : json) (st : option N) : Response :=
  {| status := match st with Some n => n | None => 200%N end; body := data |}.

(** The body of the [try] block runs in a monad that logs effects and may
    throw. *)
Definition M (A : Type) : Type := (list Effect * (A + Raised))%type.

Definition ret {A} (a : A) : M A := ([], inl a).
Definition throw {A} (r : Raised) : M A := ([], inr r).
Definition perform (e : Effect) : M unit := ([e], inl tt).

Definition bind {A B} (m : M A) (k : A -> M B) : M B :=
  match m with
  | (log, inl a) => let (log', r) := k a in (log ++ log', r)
  | (log, inr e) => (log, inr e)
  end.

Definition catch {A} (m : M A) (handler : Raised -> M A) : M A :=
  match m with
  | (log, inl a) => (log, inl a)
  | (log, inr e) => let (log', r) := handler e in (log ++ log', r)
  end.

Notation "x <- m ;; k" := (bind m (fun x => k))
  (at level 61, m at next level, right associativity).

(** The request, as far as the handler reads it: [request.json()] either
    yields the parsed body or rejects with a SyntaxError ([None]). *)
Record Request : Type := { requestBody : option json }.

Definition request_json (request : Request) : M json :=
  match requestBody request with
  | Some j => ret j
  | None => throw SyntaxError
  end.

(** [payload.k?.trim()]: [undefined] ([None]) when the member is absent or
    null, the trimmed string when it is a string; any other value has no
    [trim] method, and the call throws. *)
Definition field_trim (payload : json) (k : jsstring) : M (option jsstring) :=
  match getProp payload k with
  | ThrowsTypeError => throw TypeError
  | Value v =>
      match v with
      | None | Some JNull => ret None
      | Some (JString s) => ret (Some (trim s))
      | Some _ => throw TypeError
      end
  end.

(** [await resend.emails.send(e)]: the call is made; the provider either
    settles it or rejects it. *)
Definition emails_send (resend : Email -> bool) (e : Email) : M unit :=
  _ <- perform (EmailsSend e) ;;
  if resend e then ret tt else throw SendRejected.

Definition orEmpty (s : option jsstring) : jsstring :=
  match s with Some x => x | None => [] end.

Definition POST_try (from_email to_email : jsstring) (resend : Email -> bool)
  (request : Request) : M Response :=
  payload <- request_json request ;;
  name <- field_trim payload (lit "name") ;;
  email <- field_trim payload (lit "email") ;;
  message <- field_trim payload (lit "message") ;;
  if isFalsy name || isFalsy email || isFalsy message then
    ret (NextResponse_json
           (JObject [(lit "error", JString (lit "Please provide name, email, and message."))])
           (Some 400%N))
  else
    let name := orEmpty name in
    let email := orEmpty email in
    let message := orEmpty message in
    let formattedBody :=
      lit "Name: " ++ name ++ [10%N] ++ lit "Email: " ++ email
        ++ [10%N; 10%N] ++ message in
    _ <- emails_send resend
           {| from := from_email;
              to := to_email;
              replyTo := email;
              subject := lit "New portfolio inquiry from " ++ name;
              text := formattedBody |} ;;
    ret (NextResponse_json (JObject [(lit "ok", JBool true)]) None).

(** [export async function POST(request)]: the response and the effects. *)
Definition POST (env : Env) (resend : Email -> bool) (request : Request)
  : list Effect * Response :=
  if isFalsy (FROM_EMAIL env) || isFalsy (TO_EMAIL env) then
    ([], NextResponse_json
           (JObject [(lit "error", JString (lit "Email settings are incomplete on the server."))])
           (Some 500%N))
  else
    match
      catch (POST_try (orEmpty (FROM_EMAIL env)) (orEmpty (TO_EMAIL env)) resend request)
        (fun error =>
           _ <- perform (ConsoleError error) ;;
           ret (NextResponse_json
                  (JObject [(lit "error", JString (lit "Unable to send message at this time."))])
                  (Some 500%N)))
    with
    | (log, inl response) => (log, response)
    | (log, inr _) =>
        (* unreachable: the handler of [catch] does not throw *)
        (log, NextResponse_json JNull (Some 500%N))
    end.

(** An email was handed to the provider during the run. *)
Definition isEmailsSend (e : Effect) : bool :=
  match e with EmailsSend _ => true | ConsoleError _ => false end.

Definition deliveryAttempted (log : list Effect) : bool := existsb isEmailsSend log.

End Relay.

(* ------------------------------------------------------------------ *)
(** ** The contact form: src/components/ContactSection.tsx *)
(* ------------------------------------------------------------------ *)
Module Contact.
Import JS.

(** The [status] state of the component. The specification calls the four
    values idle, sending, succeeded and failed. *)
Inductive Status : Type := idle | loading | success | error.

Definition Status_eqb (a b : Status) : bool :=
  match a, b with
  | idle, idle | loading, loading | success, success | error, error => true
  | _, _ => false
  end.

(** The [formData] object: its properties in insertion order. *)
Definition FormData : Type := list (jsstring * jsstring).

(** [formData.k] *)
Fixpoint get (k : jsstring) (fd : FormData) : option jsstring :=
  match fd with
  | [] => None
  | (k', v) :: rest => if eqb k k' then Some v else get k rest
  end.

(** [{ ...fd, [k]: v }]: an existing property keeps its place and takes the
    new value, a new one is added at the end. *)
Fixpoint set (k v : jsstring) (fd : FormData) : FormData :=
  match fd with
  | [] => [(k, v)]
  | (k', v') :: rest => if eqb k k' then (k', v) :: rest else (k', v') :: set k v rest
  end.

(** The object literal of the initial state and of the reset: [name],
    [email] and [message], each the empty string. *)
Definition emptyForm : FormData :=
  [(lit "name", []); (lit "email", []); (lit "message", [])].

(** The three pieces of [useState] of the component. *)
Record State : Type := {
  formData : FormData;
  status : Status;
  feedbackMessage : option jsstring
}.

Definition initialState : State :=
  {| formData := emptyForm; status := idle; feedbackMessage := None |}.

Definition setFormData (fd : FormData) (st : State) : State :=
  {| formData := fd; status := status st; feedbackMessage := feedbackMessage st |}.

Definition setStatus (s : Status) (st : State) : State :=
  {| formData := formData st; status := s; feedbackMessage := feedbackMessage st |}.

Definition setFeedbackMessage (m : option jsstring) (st : State) : State :=
  {| formData := formData st; status := status st; feedbackMessage := m |}.

(** The argument of [fetch]. The body is [JSON.stringify(formData)], carried
    here as the JSON value that text denotes. *)
Record FetchCall : Type := {
  url : jsstring;
  method : jsstring;
  headers : list (jsstring * jsstring);
  requestBody : json
}.

Definition JSON_stringify (fd : FormData) : json :=
  JObject (map (fun kv => (fst kv, JString (snd kv))) fd).

(** What the client sees of a response: the status line and the body, which
    [response.json()] parses ([None]: the body is not JSON and the promise
    rejects). *)
Record Response : Type := {
  responseStatus : N;
  responseBody : option json
}.

(** [response.ok]: the status is in the range 200-299. *)
Definition ok (r : Response) : bool :=
  N.leb 200 (responseStatus r) && N.leb (responseStatus r) 299.

(** A thrown value: an instance of Error with its [message], or any other
    value. *)
Inductive Thrown : Type :=
| ErrorInstance (message : jsstring)
| NotAnError.

(** How the promise returned by [fetch] settles. *)
Inductive FetchOutcome : Type :=
| Fulfilled (response : Response)
| Rejected (reason : Thrown).

(** [(await response.json().catch(() => null))]: [Some JNull] stands for
    [null], whether parsed or substituted by the [catch]. *)
Definition json_or_null (r : Response) : json :=
  match responseBody r with
  | Some j => j
  | None => JNull
  end.

(** [data?.error ?? "Failed to send your message."], then the message that
    [new Error(...)] stores. *)
Definition errorText (data : json) : jsstring :=
  let member :=
    match data with
    | JNull => None                         (* [?.] short-cuts on null *)
    | _ => match getProp data (lit "error") with
           | Value v => v
           | ThrowsTypeError => None
           end
    end in
  match member with
  | None | Some JNull => lit "Failed to send your message."
  | Some v => ToString v
  end.

(** The first part of [handleSubmit], up to [await fetch(...)].
    [e.preventDefault()] only stops the browser's own navigation and leaves
    the component alone. *)
Definition handleSubmit_begin (st : State) : State * FetchCall :=
  let st1 := setStatus loading st in
  let st2 := setFeedbackMessage None st1 in
  (st2,
   {| url := lit "/api/contact";
      method := lit "POST";
      headers := [(lit "Content-Type", lit "application/json")];
      requestBody := JSON_stringify (formData st) |}).

(** The rest of the [try] block once [fetch] has settled: it completes
    ([None]) or throws. *)
Definition afterFetch (o : FetchOutcome) : option Thrown :=
  match o with
  | Rejected reason => Some reason
  | Fulfilled response =>
      if negb (ok response) then
        Some (ErrorInstance (errorText (json_or_null response)))
      else None
  end.

(** "Thanks for reaching out! I’ll respond shortly." The apostrophe of the
    source literal is U+2019 (code unit 8217). *)
Definition thanks : jsstring :=
  lit "Thanks for reaching out! I" ++ [8217%N] ++ lit "ll respond shortly.".

(** The second part of [handleSubmit], run when [fetch] settles. *)
Definition handleSubmit_settle (o : FetchOutcome) (st : State) : State :=
  match afterFetch o with
  | None =>
      let st1 := setStatus success st in
      let st2 := setFeedbackMessage (Some thanks) st1 in
      setFormData emptyForm st2
  | Some thrown =>
      let st1 := setStatus error st in
      setFeedbackMessage
        (Some match thrown with
              | ErrorInstance message => message
              | NotAnError => lit "Something went wrong. Please try again."
              end)
        st1
  end.

(** One whole submission with nothing else happening in between. *)
Definition handleSubmit (o : FetchOutcome) (st : State) : State :=
  handleSubmit_settle o (fst (handleSubmit_begin st)).

(** The statuses the flow goes through during one submission. *)
Definition statusTrace (o : FetchOutcome) (st : State) : list Status :=
  [status st; status (fst (handleSubmit_begin st)); status (handleSubmit o st)].

(** [e.target.name] and [e.target.value] of a change event. *)
Record ChangeEvent : Type := {
  target_name : jsstring;
  target_value : jsstring
}.

Definition handleChange (e : ChangeEvent) (st : State) : State :=
  setFormData (set (target_name e) (target_value e) (formData st)) st.

(** [disabled={status === "loading"}] on the submit button. *)
Definition submitDisabled (st : State) : bool := Status_eqb (status st) loading.

(** The mounted form: the component state and the requests that [fetch] has
    issued and that have not settled yet, oldest first; [issued] counts every
    request made so far. *)
Record Form : Type := {
  component : State;
  inflight : list FetchCall;
  issued : nat
}.

Definition initialForm : Form :=
  {| component := initialState; inflight := []; issued := 0 |}.

(** What can happen to the form. *)
Inductive Event : Type :=
| Change (e : ChangeEvent)     (* the visitor edits a field *)
| Submit                       (* the visitor activates the submit button: a click,
                                  or an implicit submission, which goes through
                                  the same button *)
| Settle (o : FetchOutcome)    (* the oldest outstanding request settles *).

Section Browser.

(** The browser's constraint validation of the widgets ([required],
    [type="email"]), which decides with the button's [disabled] whether
    activating the button fires the form's [onSubmit]. *)
Variable checkValidity : FormData -> bool.

Definition step (f : Form) (ev : Event) : Form :=
  match ev with
  | Change e =>
      {| component := handleChange e (component f);
         inflight := inflight f;
         issued := issued f |}
  | Submit =>
      if submitDisabled (component f) then f
      else if checkValidity (formData (component f)) then
        let (st, call) := handleSubmit_begin (component f) in
        {| component := st;
           inflight := inflight f ++ [call];
           issued := S (issued f) |}
      else f
  | Settle o =>
      match inflight f with
      | [] => f
      | _ :: rest =>
          {| component := handleSubmit_settle o (component f);
             inflight := rest;
             issued := issued f |}
      end
  end.

Definition run (evs : list Event) (f : Form) : Form := fold_left step evs f.

End Browser.

(** The requests outstanding are exactly the one of a flow that is sending. *)
Definition inv (f : Form) : Prop :=
  match status (component f) with
  | loading => length (inflight f) = 1
  | _ => inflight f = []
  end.

End Contact.

(* ------------------------------------------------------------------ *)
(** ** The page: App, the sections' observers and LeftNav *)
(* ------------------------------------------------------------------ *)
Module Nav.
Import JS.

(** What the page asks of its host, oldest first. *)
Inductive Effect : Type :=
| ScrollIntoView (id : jsstring)      (* element.scrollIntoView({behavior:"smooth"}) *)
| SetActiveSection (id : jsstring)    (* setActiveSection(id) *)
| SetIsOpen (b : bool)                (* setIsOpen(b) *).

(** [activeSection] is the state of [App], [isOpen] the drawer state of
    [LeftNav]; [trace] records the calls made so far. *)
Record Page : Type := {
  activeSection : jsstring;
  isOpen : bool;
  trace : list Effect
}.

(** [useState("home")] in [App], [useState(false)] in [LeftNav]. *)
Definition initialPage : Page :=
  {| activeSection := lit "home"; isOpen := false; trace := [] |}.

(** The ids of [navItems]. *)
Definition navItems : list jsstring :=
  [lit "home"; lit "skills"; lit "projects"; lit "contact"].

(** The coordinator's write: the state setter of [App]. *)
Definition setActiveSection (section : jsstring) (p : Page) : Page :=
  {| activeSection := section;
     isOpen := isOpen p;
     trace := trace p ++ [SetActiveSection section] |}.

Definition setIsOpen (b : bool) (p : Page) : Page :=
  {| activeSection := activeSection p;
     isOpen := b;
     trace := trace p ++ [SetIsOpen b] |}.

Definition scrollIntoView (id : jsstring) (p : Page) : Page :=
  {| activeSection := activeSection p;
     isOpen := isOpen p;
     trace := trace p ++ [ScrollIntoView id] |}.

(** The document, as far as [getElementById] sees it: the ids of the
    elements present. *)
Definition Document : Type := list jsstring.

Definition getElementById (document : Document) (id : jsstring) : option jsstring :=
  find (eqb id) document.

(** [LeftNav.scrollToSection] *)
Definition scrollToSection (document : Document) (id : jsstring) (p : Page) : Page :=
  match getElementById document id with
  | Some element =>
      let p1 := scrollIntoView element p in
      let p2 := setActiveSection id p1 in
      setIsOpen false p2
  | None => p
  end.

(** An entry handed to an IntersectionObserver callback. *)
Record IntersectionObserverEntry : Type := {
  isIntersecting : bool
}.

(** The callback each section registers:
    [(entries) => { if (entries[0].isIntersecting) setActiveSection(id) }].
    An observer always passes at least one entry; on an empty list
    [entries[0]] is undefined, the read throws and nothing is written. *)
Definition observerCallback (id : jsstring) (entries : list IntersectionObserverEntry)
  (p : Page) : Page :=
  match entries with
  | [] => p
  | entry :: _ => if isIntersecting entry then setActiveSection id p else p
  end.

(** A visibility event as the coordinator receives it: the callback of
    section [id] ran with an intersecting entry, which is the call
    [setActiveSection(id)]. *)
Definition report (sectionId : jsstring) (p : Page) : Page :=
  observerCallback sectionId [{| isIntersecting := true |}] p.

(** The coordinator's read. *)
Definition read (p : Page) : jsstring := activeSection p.

Definition deliver (events : list jsstring) (p : Page) : Page :=
  fold_left (fun q id => report id q) events p.

End Nav.

(* ------------------------------------------------------------------ *)
(** ** Vocabulary of the properties *)
(* ------------------------------------------------------------------ *)
Module Spec.
Import JS.

(** The member [k] of a request body, [None] when there is none. *)
Definition fieldOf (payload : json) (k : jsstring) : option json :=
  match getProp payload k with
  | Value v => v
  | ThrowsTypeError => None
  end.

(** The field is absent (or null), or it is a string. *)
Definition stringOrAbsent (v : option json) : bool :=
  match v with
  | None | Some JNull | Some (JString _) => true
  | Some _ => false
  end.

(** The field is absent (or null), or it is a string that is blank after
    trimming surrounding whitespace. *)
Definition absentOrBlank (v : option json) : bool :=
  match v with
  | None | Some JNull => true
  | Some (JString s) => match trim s with [] => true | _ :: _ => false end
  | Some _ => false
  end.

(** Both identities of the server are set to non-empty strings. *)
Definition configured (env : Relay.Env) : bool :=
  negb (Relay.isFalsy (Relay.FROM_EMAIL env)) && negb (Relay.isFalsy (Relay.TO_EMAIL env)).

(** The 400 response of the relay. *)
Definition badRequest : Relay.Response :=
  {| Relay.status := 400;
     Relay.body :=
       JObject [(lit "error", JString (lit "Please provide name, email, and message."))] |}.

(** The catch-all 500 response of the relay. *)
Definition unableToSend : Relay.Response :=
  {| Relay.status := 500;
     Relay.body :=
       JObject [(lit "error", JString (lit "Unable to send message at this time."))] |}.

(** All three fields of a draft hold a non-empty string. *)
Definition populated (fd : Contact.FormData) : bool :=
  match Contact.get (lit "name") fd, Contact.get (lit "email") fd,
        Contact.get (lit "message") fd with
  | Some (_ :: _), Some (_ :: _), Some (_ :: _) => true
  | _, _, _ => false
  end.

(** The draft of the specification's example. *)
Definition adaDraft : Contact.FormData :=
  [(lit "name", lit "Ada"); (lit "email", lit "ada@example.com");
   (lit "message", lit "Hello")].

(** [{ ok: true }] with status 200, as the client receives it. *)
Definition okResponse : Contact.Response :=
  {| Contact.responseStatus := 200;
     Contact.responseBody := Some (JObject [(lit "ok", JBool true)]) |}.

(** [{ error: m }] with status 400, as the client receives it. *)
Definition errorResponse (m : jsstring) : Contact.Response :=
  {| Contact.responseStatus := 400;
     Contact.responseBody := Some (JObject [(lit "error", JString m)]) |}.

(** What [payload.k?.trim()] evaluates to on a field that is a string or
    absent. *)
Definition trimmed (v : option json) : option jsstring :=
  match v with
  | Some (JString s) => Some (trim s)
  | _ => None
  end.

(** The sender is configured, the recipient falls back to it. *)
Definition goodEnv : Relay.Env :=
  {| Relay.RESEND_API_KEY := Some (lit "re_key");
     Relay.RESEND_FROM_EMAIL := Some (lit "site@example.com");
     Relay.CONTACT_TO_EMAIL := None |}.

(** The provider's key is set, the sender and the recipient are not. *)
Definition noSenderEnv : Relay.Env :=
  {| Relay.RESEND_API_KEY := Some (lit "re_key");
     Relay.RESEND_FROM_EMAIL := None;
     Relay.CONTACT_TO_EMAIL := None |}.

(** A body with [name] "Ada", [email] "ada@example.com" and a [message] of
    two spaces and a line feed. *)
Definition blankMessage : json :=
  JObject [(lit "name", JString (lit "Ada"));
           (lit "email", JString (lit "ada@example.com"));
           (lit "message", JString [32; 32; 10]%N)].

(** A body whose [name] is the number 1, whose [email] is the empty string
    and whose [message] is "Hello". *)
Definition numericName : json :=
  JObject [(lit "name", JNumber (lit "1"));
           (lit "email", JString []);
           (lit "message", JString (lit "Hello"))].

(** A response of the relay as the client's [fetch] receives it. *)
Definition overTheWire (r : Relay.Response) : Contact.Response :=
  {| Contact.responseStatus := Relay.status r;
     Contact.responseBody := Some (Relay.body r) |}.

(** The relay answering the request that [handleSubmit] issues. *)
Definition relayAnswers (env : Relay.Env) (resend : Relay.Email -> bool)
  (call : Contact.FetchCall) : Contact.FetchOutcome :=
  Contact.Fulfilled
    (overTheWire
       (snd (Relay.POST env resend
               {| Relay.requestBody := Some (Contact.requestBody call) |}))).

End Spec.

(* ------------------------------------------------------------------ *)
(** ** The page as App wires it *)
(* ------------------------------------------------------------------ *)
Module Page.
Import JS Nav.

(** The four sections [App] renders, each with the [id] it is given:
    [<HeroSection id="home" />], [<SkillsSection id="skills" />],
    [<ProjectsSection id="projects" />], [<ContactSection id="contact" />]. *)
Inductive SectionComponent : Type :=
| HeroSection | SkillsSection | ProjectsSection | ContactSection.

Definition idOf (s : SectionComponent) : jsstring :=
  match s with
  | HeroSection => lit "home"
  | SkillsSection => lit "skills"
  | ProjectsSection => lit "projects"
  | ContactSection => lit "contact"
  end.

(** The entries of [navItems] in [LeftNav], with their [id] and [label]. *)
Inductive NavItem : Type := Home | Skills | Projects | Contact.

Definition items : list NavItem := [Home; Skills; Projects; Contact].

Definition itemId (i : NavItem) : jsstring :=
  match i with
  | Home => lit "home"
  | Skills => lit "skills"
  | Projects => lit "projects"
  | Contact => lit "contact"
  end.

Definition label (i : NavItem) : jsstring :=
  match i with
  | Home => lit "Home"
  | Skills => lit "Skills"
  | Projects => lit "Projects"
  | Contact => lit "Contact"
  end.

(** The elements of the rendered page that carry an [id], in document
    order: the four sections, and inside the contact section the three
    widgets of the form. *)
Definition appDocument : Document :=
  map idOf [HeroSection; SkillsSection; ProjectsSection; ContactSection]
    ++ [lit "name"; lit "email"; lit "message"].

(** [const isActive = activeSection === item.id] *)
Definition isActive (p : Page) (i : NavItem) : bool := eqb (activeSection p) (itemId i).

(** The entries rendered with the highlighted style. *)
Definition highlighted (p : Page) : list NavItem := filter (isActive p) items.

(** What can happen to the page. *)
Inductive Event : Type :=
| Observed (s : SectionComponent) (entries : list IntersectionObserverEntry)
                                    (* the observer of a section calls back *)
| NavClick (i : NavItem)            (* onClick of a navigation entry *)
| ToggleDrawer                      (* onClick of the mobile toggle button *)
| OverlayClick                      (* onClick of the mobile overlay *).

(** The overlay is rendered only while the drawer is open. *)
Definition step (p : Page) (ev : Event) : Page :=
  match ev with
  | Observed s entries => observerCallback (idOf s) entries p
  | NavClick i => scrollToSection appDocument (itemId i) p
  | ToggleDrawer => setIsOpen (negb (isOpen p)) p
  | OverlayClick => if isOpen p then setIsOpen false p else p
  end.

Definition run (evs : list Event) (p : Page) : Page := fold_left step evs p.

(** The identifier an event writes to the coordinator, if it writes. *)
Definition written (ev : Event) : option jsstring :=
  match ev with
  | Observed s (entry :: _) => if isIntersecting entry then Some (idOf s) else None
  | Observed _ [] => None
  | NavClick i => Some (itemId i)
  | ToggleDrawer | OverlayClick => None
  end.

Fixpoint lastWritten (evs : list Event) (start : jsstring) : jsstring :=
  match evs with
  | [] => start
  | ev :: rest =>
      lastWritten rest (match written ev with Some id => id | None => start end)
  end.

Definition isToggle (ev : Event) : bool :=
  match ev with ToggleDrawer => true | _ => false end.

End Page.

(* ------------------------------------------------------------------ *)
(** ** ImageWithFallback (the next/image variant) *)
(* ------------------------------------------------------------------ *)
Module Image.
Import JS.

(** [s.startsWith(prefix)] *)
Fixpoint startsWith (prefix s : jsstring) : bool :=
  match prefix, s with
  | [], _ => true
  | a :: prefix', b :: s' => N.eqb a b && startsWith prefix' s'
  | _ :: _, [] => false
  end.

(** [n.toString()] for the non-negative integers next/image passes as
    [width] and [quality]. *)
Definition Number_toString (n : N) : jsstring :=
  lit (DecimalString.NilEmpty.string_of_uint (N.to_uint n)).

(** URLSearchParams: the name-value pairs in order. *)
Definition URLSearchParams : Type := list (jsstring * jsstring).

Definition has (name : jsstring) (params : URLSearchParams) : bool :=
  existsb (fun kv => eqb name (fst kv)) params.

Fixpoint get (name : jsstring) (params : URLSearchParams) : option jsstring :=
  match params with
  | [] => None
  | (k, v) :: rest => if eqb name k then Some v else get name rest
  end.

(** [params.set(name, value)]: the first pair of that name takes the value
    and the others of that name are removed; without such a pair, one is
    appended. *)
Fixpoint set (name value : jsstring) (params : URLSearchParams) : URLSearchParams :=
  match params with
  | [] => [(name, value)]
  | (k, v) :: rest =>
      if eqb name k then
        (k, value) :: filter (fun kv => negb (eqb name (fst kv))) rest
      else (k, v) :: set name value rest
  end.

(** A parsed URL: the loader only touches its query. *)
Record URL : Type := {
  beforeQuery : jsstring;
  searchParams : URLSearchParams;
  fragment : jsstring
}.

Definition INLINE_FALLBACK_SVG : jsstring :=
  lit "data:image/svg+xml;base64,PHN2ZyB3aWR0aD0iODgiIGhlaWdodD0iODgiIHhtbG5zPSJodHRwOi8vd3d3LnczLm9yZy8yMDAwL3N2ZyIgc3Ryb2tlPSIjMDAwIiBzdHJva2UtbGluZWpvaW49InJvdW5kIiBvcGFjaXR5PSIuMyIgZmlsbD0ibm9uZSIgc3Ryb2tlLXdpZHRoPSIzLjciPjxyZWN0IHg9IjE2IiB5PSIxNiIgd2lkdGg9IjU2IiBoZWlnaHQ9IjU2IiByeD0iNiIvPjxwYXRoIGQ9Im0xNiA1OCAxNi0xOCAzMiAzMiIvPjxjaXJjbGUgY3g9IjUzIiBjeT0iMzUiIHI9IjciLz48L3N2Zz4KCg==".

(** The edits the loader makes to the parsed URL before serialising it. *)
Definition withLoaderParams (url : URL) (width : N) (quality : option N) : URL :=
  let p1 := set (lit "w") (Number_toString width) (searchParams url) in
  let p2 := if negb (has (lit "auto") p1) then set (lit "auto") (lit "format") p1 else p1 in
  let p3 :=
    match quality with
    | Some q => if N.eqb q 0 then p2 else set (lit "q") (Number_toString q) p2
    | None => p2
    end in
  {| beforeQuery := beforeQuery url; searchParams := p3; fragment := fragment url |}.

Section Loader.

(** The platform's URL parser and serialiser: [new URL(src)] throws
    ([None]) on a string that is not an absolute URL. *)
Variable parseURL : jsstring -> option URL.
Variable URL_toString : URL -> jsstring.

(** [FALLBACK_AWARE_LOADER({ src, width, quality })] *)
Definition FALLBACK_AWARE_LOADER (src : jsstring) (width : N) (quality : option N)
  : jsstring :=
  if startsWith (lit "/") src
     || startsWith (lit "data:") src
     || startsWith (lit "blob:") src
  then src
  else
    match parseURL src with
    | Some url => URL_toString (withLoaderParams url width quality)
    | None => src
    end.

End Loader.

(** The [src] of an image: a string or a static import. *)
Inductive Src : Type :=
| StringSrc (s : jsstring)
| StaticImport (path : jsstring).

(** What the component does on an error event, oldest first. *)
Inductive Effect : Type :=
| SetCurrentSrc (s : jsstring)
| OnError.

(** The props the error handling reads: [fallbackSrc] (optional), whether
    an [onError] handler was passed, and [src]. *)
Record Props : Type := {
  fallbackSrc : option jsstring;
  onError : bool;
  src : Src
}.

(** [fallbackSrc = INLINE_FALLBACK_SVG] in the parameter list. *)
Definition fallbackOf (props : Props) : jsstring :=
  match fallbackSrc props with
  | Some f => f
  | None => INLINE_FALLBACK_SVG
  end.

Record State : Type := {
  currentSrc : Src;
  trace : list Effect
}.

(** [useState(src)] *)
Definition initialState (props : Props) : State :=
  {| currentSrc := src props; trace := [] |}.

Definition setCurrentSrc (s : jsstring) (st : State) : State :=
  {| currentSrc := StringSrc s; trace := trace st ++ [SetCurrentSrc s] |}.

Definition handleError (props : Props) (st : State) : State :=
  let st1 :=
    match currentSrc st with
    | StringSrc s =>
        if negb (eqb s (fallbackOf props)) then setCurrentSrc (fallbackOf props) st
        else st
    | StaticImport _ => st
    end in
  if onError props then
    {| currentSrc := currentSrc st1; trace := trace st1 ++ [OnError] |}
  else st1.

(** [n] error events in a row. *)
Fixpoint errors (n : nat) (props : Props) (st : State) : State :=
  match n with
  | O => st
  | S n' => errors n' props (handleError props st)
  end.

(** How many pairs of the query have the given name. *)
Definition occurrences (name : jsstring) (params : URLSearchParams) : nat :=
  length (filter (fun kv => eqb name (fst kv)) params).

Definition isSetCurrentSrc (e : Effect) : bool :=
  match e with SetCurrentSrc _ => true | OnError => false end.

Definition isOnError (e : Effect) : bool :=
  match e with OnError => true | SetCurrentSrc _ => false end.

End Image.

(* ------------------------------------------------------------------ *)
(** ** Further vocabulary *)
(* ------------------------------------------------------------------ *)
Module Props.
Import JS.

(** The string is empty once trimmed. *)
Definition blank (s : jsstring) : bool :=
  match trim s with [] => true | _ :: _ => false end.

(** The 500 of the configuration guard. *)
Definition incompleteSettings : Relay.Response :=
  {| Relay.status := 500;
     Relay.body :=
       JObject [(lit "error", JString (lit "Email settings are incomplete on the server."))] |}.

(** The 200 of a relayed message. *)
Definition okSent : Relay.Response :=
  {| Relay.status := 200; Relay.body := JObject [(lit "ok", JBool true)] |}.

(** The email built from the trimmed fields. *)
Definition inquiry (from to name email message : jsstring) : Relay.Email :=
  {| Relay.from := from;
     Relay.to := to;
     Relay.replyTo := email;
     Relay.subject := lit "New portfolio inquiry from " ++ name;
     Relay.text := lit "Name: " ++ name ++ [10%N] ++ lit "Email: " ++ email
                     ++ [10%N; 10%N] ++ message |}.


(** The property names of a draft, in order. *)
Definition keys (fd : Contact.FormData) : list jsstring := map fst fd.

(** A draft with the three fields of the form. *)
Definition draft (name email message : jsstring) : Contact.FormData :=
  [(lit "name", name); (lit "email", email); (lit "message", message)].

Definition isChange (ev : Contact.Event) : bool :=
  match ev with Contact.Change _ => true | _ => false end.

(** What holds of the feedback and of the request count in each status. *)
Definition feedbackInv (f : Contact.Form) : Prop :=
  match Contact.status (Contact.component f) with
  | Contact.idle =>
      Contact.feedbackMessage (Contact.component f) = None /\ Contact.issued f = 0
  | Contact.loading =>
      Contact.feedbackMessage (Contact.component f) = None /\ 0 < Contact.issued f
  | Contact.success | Contact.error =>
      Contact.feedbackMessage (Contact.component f) <> None /\ 0 < Contact.issued f
  end.

(** A string with no whitespace at its start. *)
Definition noLeading (s : jsstring) : Prop :=
  match s with
  | [] => True
  | c :: _ => isWhiteSpace c = false
  end.

(** The draft of a form: its properties start with the three fields, and
    no name occurs twice. *)
Definition shaped (f : Contact.Form) : Prop :=
  NoDup (keys (Contact.formData (Contact.component f)))
  /\ exists extra,
       keys (Contact.formData (Contact.component f)) = keys Contact.emptyForm ++ extra.

End Props.

(* ------------------------------------------------------------------ *)
(** ** Facts about strings *)
(* ------------------------------------------------------------------ *)
Section StringFacts.
Import JS.

Lemma eqb_refl (s : jsstring) : eqb s s = true.
Proof.
  induction s as [|c s IH]; simpl; [reflexivity|].
  now rewrite N.eqb_refl, IH.
Qed.

Lemma eqb_eq (s t : jsstring) : eqb s t = true <-> s = t.
Proof.
  split.
  - revert t; induction s as [|a s IH]; intros [|b t]; simpl; try discriminate; auto.
    intros H. apply andb_prop in H as [Hab Hst].
    apply N.eqb_eq in Hab. apply IH in Hst. congruence.
  - intros ->. apply eqb_refl.
Qed.

Lemma eqb_neq (s t : jsstring) : eqb s t = false <-> s <> t.
Proof.
  rewrite <- eqb_eq. destruct (eqb s t); split; congruence.
Qed.

Lemma trimStart_blank (s : jsstring) :
  trimStart s = [] <-> forallb isWhiteSpace s = true.
Proof.
  induction s as [|c s IH]; simpl.
  - tauto.
  - destruct (isWhiteSpace c); simpl; [exact IH|].
    split; discriminate.
Qed.

(** A string trims to the empty string exactly when it consists of
    whitespace only. *)
Lemma trim_blank (s : jsstring) :
  trim s = [] <-> forallb isWhiteSpace s = true.
Proof.
  unfold trim, trimEnd. split.
  - intros H.
    assert (Hr : trimStart (rev (trimStart s)) = []).
    { destruct (trimStart (rev (trimStart s))) as [|x l] eqn:E; [reflexivity|].
      simpl in H. destruct (rev l); discriminate. }
    apply trimStart_blank in Hr.
    destruct (trimStart s) as [|c r] eqn:E.
    + now apply trimStart_blank.
    + exfalso.
      assert (Hc : isWhiteSpace c = false).
      { destruct s as [|a s']; [discriminate|].
        clear Hr. revert a E. induction s' as [|b s' IH]; intros a E; simpl in E.
        - destruct (isWhiteSpace a) eqn:Ea; [discriminate|]. congruence.
        - destruct (isWhiteSpace a) eqn:Ea.
          + apply (IH b). exact E.
          + congruence. }
      rewrite forallb_forall in Hr.
      assert (Hin : In c (rev (c :: r)))
        by (apply in_rev; rewrite rev_involutive; now left).
      specialize (Hr c Hin). congruence.
  - intros H. apply trimStart_blank in H. now rewrite H.
Qed.

End StringFacts.

(* ------------------------------------------------------------------ *)
(** ** The relay endpoint *)
(* ------------------------------------------------------------------ *)
Section RelayFacts.
Import JS Relay Spec.

Lemma field_trim_ok (payload : json) (k : jsstring) :
  payload <> JNull ->
  stringOrAbsent (fieldOf payload k) = true ->
  field_trim payload k = ret (trimmed (fieldOf payload k)).
Proof.
  intros Hnull Hstr. unfold field_trim, fieldOf in *.
  destruct payload; try congruence; simpl in *;
    try reflexivity.
  destruct (lookup k members) as [[]|]; simpl in *; try reflexivity; discriminate.
Qed.

Lemma isFalsy_trimmed (v : option json) :
  stringOrAbsent v = true -> isFalsy (trimmed v) = absentOrBlank v.
Proof.
  destruct v as [[]|]; simpl; intros H; try reflexivity; discriminate H.
Qed.

Lemma bind_ret {A B} (a : A) (k : A -> M B) : bind (ret a) k = k a.
Proof.
  unfold bind, ret. destruct (k a) as [log r]. reflexivity.
Qed.

Lemma configured_guard (env : Env) :
  configured env = true ->
  isFalsy (FROM_EMAIL env) || isFalsy (TO_EMAIL env) = false.
Proof.
  unfold configured. intros H. apply andb_prop in H as [H1 H2].
  apply negb_true_iff in H1, H2. now rewrite H1, H2.
Qed.

Lemma unconfigured_guard (env : Env) :
  configured env = false ->
  isFalsy (FROM_EMAIL env) || isFalsy (TO_EMAIL env) = true.
Proof.
  unfold configured. intros H. apply andb_false_iff in H as [H|H];
    apply negb_false_iff in H; rewrite H; auto using orb_true_r.
Qed.

(** C6, as amended: with the server's sender and recipient configured, a
    request whose body is JSON other than [null], in which each of [name],
    [email] and [message] is absent, null or a string, and in which at least
    one of them is absent, null or blank after trimming, is answered with
    status 400 and [{error: "Please provide name, email, and message."}];
    nothing is sent and nothing is logged. *)
Theorem C6_blank_field_rejected
  (env : Env) (resend : Email -> bool) (request : Request) (payload : json) :
  configured env = true ->
  requestBody request = Some payload ->
  payload <> JNull ->
  stringOrAbsent (fieldOf payload (lit "name")) = true ->
  stringOrAbsent (fieldOf payload (lit "email")) = true ->
  stringOrAbsent (fieldOf payload (lit "message")) = true ->
  absentOrBlank (fieldOf payload (lit "name"))
  || absentOrBlank (fieldOf payload (lit "email"))
  || absentOrBlank (fieldOf payload (lit "message")) = true ->
  POST env resend request = ([], badRequest)
  /\ deliveryAttempted (fst (POST env resend request)) = false.
Proof.
  intros Hcfg Hbody Hnull Hn He Hm Hblank.
  assert (E : POST env resend request = ([], badRequest)).
  { unfold POST. rewrite (configured_guard _ Hcfg).
    unfold POST_try, request_json. rewrite Hbody, bind_ret.
    rewrite (field_trim_ok _ Hnull Hn), bind_ret.
    rewrite (field_trim_ok _ Hnull He), bind_ret.
    rewrite (field_trim_ok _ Hnull Hm), bind_ret.
    rewrite !isFalsy_trimmed by assumption.
    rewrite Hblank. reflexivity. }
  rewrite E. split; reflexivity.
Qed.

Lemma C6_blank_field_rejected_witness :
  POST goodEnv (fun _ => true) {| requestBody := Some blankMessage |} = ([], badRequest)
  /\ deliveryAttempted
       (fst (POST goodEnv (fun _ => true) {| requestBody := Some blankMessage |})) = false.
Proof.
  apply (@C6_blank_field_rejected goodEnv (fun _ => true)
           {| requestBody := Some blankMessage |} blankMessage);
    try reflexivity.
  discriminate.
Defined.

(** C6 as stated fails on three kinds of request, each with a blank or
    absent field: when the server's identities are not configured the answer
    is the 500 of the configuration guard; when another field is not a string
    ([name] is the number 1, [email] is blank) the call of [trim] throws and
    the answer is the catch-all 500; and on the body [null], where all three
    fields are absent, reading [payload.name] throws. *)
Lemma C6_counterexample :
  (absentOrBlank (fieldOf blankMessage (lit "message")) = true
   /\ POST noSenderEnv (fun _ => true) {| requestBody := Some blankMessage |}
      = ([], {| status := 500;
                body := JObject [(lit "error",
                          JString (lit "Email settings are incomplete on the server."))] |}))
  /\ (absentOrBlank (fieldOf numericName (lit "email")) = true
      /\ POST goodEnv (fun _ => true) {| requestBody := Some numericName |}
         = ([ConsoleError TypeError], unableToSend))
  /\ (absentOrBlank (fieldOf JNull (lit "name")) = true
      /\ POST goodEnv (fun _ => true) {| requestBody := Some JNull |}
         = ([ConsoleError TypeError], unableToSend)).
Proof.
  repeat split; reflexivity.
Qed.

(** C9, as amended: a request whose body is not JSON is always answered with
    status 500, never 400, and no delivery is attempted; when the server's
    sender and recipient are configured the body is the catch-all
    [{error: "Unable to send message at this time."}] and the SyntaxError is
    logged, and when they are not it is the configuration guard's
    [{error: "Email settings are incomplete on the server."}]. *)
Theorem C9_unparseable_body
  (env : Env) (resend : Email -> bool) :
  let result := POST env resend {| requestBody := None |} in
  status (snd result) = 500%N
  /\ status (snd result) <> 400%N
  /\ deliveryAttempted (fst result) = false
  /\ result =
       if configured env then ([ConsoleError SyntaxError], unableToSend)
       else ([], {| status := 500;
                    body := JObject [(lit "error",
                              JString (lit "Email settings are incomplete on the server."))] |}).
Proof.
  cbv zeta. unfold POST.
  destruct (configured env) eqn:Hcfg.
  - rewrite (configured_guard _ Hcfg). cbn. repeat split. discriminate.
  - rewrite (unconfigured_guard _ Hcfg). cbn. repeat split. discriminate.
Qed.

(** C9 as stated fails when the server's identities are not configured: the
    body of the 500 is then not the catch-all one. *)
Lemma C9_counterexample :
  body (snd (POST noSenderEnv (fun _ => true) {| requestBody := None |}))
  = JObject [(lit "error", JString (lit "Email settings are incomplete on the server."))]
  /\ snd (POST noSenderEnv (fun _ => true) {| requestBody := None |}) <> unableToSend.
Proof.
  split; [reflexivity|]. cbv. discriminate.
Qed.

End RelayFacts.

(* ------------------------------------------------------------------ *)
(** ** The contact form *)
(* ------------------------------------------------------------------ *)
Section ContactFacts.
Import JS Contact Spec.

Lemma get_set (k k' v : jsstring) (fd : FormData) :
  get k' (set k v fd) = if eqb k' k then Some v else get k' fd.
Proof.
  induction fd as [|[k0 v0] fd IH]; simpl.
  - destruct (eqb k' k); reflexivity.
  - destruct (eqb k k0) eqn:E; simpl.
    + apply eqb_eq in E. subst k0.
      destruct (eqb k' k); reflexivity.
    + destruct (eqb k' k0) eqn:E'.
      * apply eqb_eq in E'. subst k0.
        destruct (eqb k' k) eqn:E''; [|reflexivity].
        apply eqb_eq in E''. subst k'. rewrite eqb_refl in E. discriminate.
      * exact IH.
Qed.

Lemma settle_not_loading (o : FetchOutcome) (st : State) :
  status (handleSubmit_settle o st) <> loading.
Proof.
  unfold handleSubmit_settle. destruct (afterFetch o); simpl; discriminate.
Qed.

(** C1, as amended: a submission from the idle state that the endpoint
    answers with a 2xx status (200 with [{ok:true}] in particular) takes the
    flow through idle, sending (loading), succeeded (success); the feedback
    is "Thanks for reaching out! I’ll respond shortly." with the typographic
    apostrophe U+2019, and the draft is reset to the three empty fields. *)
Theorem C1_successful_submission (st : State) (r : Response) :
  status st = idle ->
  ok r = true ->
  statusTrace (Fulfilled r) st = [idle; loading; success]
  /\ feedbackMessage (handleSubmit (Fulfilled r) st)
     = Some (lit "Thanks for reaching out! I" ++ [8217%N] ++ lit "ll respond shortly.")
  /\ formData (handleSubmit (Fulfilled r) st)
     = [(lit "name", []); (lit "email", []); (lit "message", [])].
Proof.
  intros Hidle Hok.
  unfold statusTrace, handleSubmit, handleSubmit_settle, afterFetch.
  rewrite Hok. simpl. rewrite Hidle. repeat split.
Qed.

Lemma C1_successful_submission_witness :
  populated adaDraft = true
  /\ statusTrace (Fulfilled okResponse)
       {| formData := adaDraft; status := idle; feedbackMessage := None |}
     = [idle; loading; success].
Proof.
  split; [reflexivity|].
  apply (@C1_successful_submission
           {| formData := adaDraft; status := idle; feedbackMessage := None |}
           okResponse); reflexivity.
Defined.

(** C1 as stated fails on the feedback text: the message the code shows has
    U+2019 where the claim's text has the ASCII apostrophe. *)
Lemma C1_counterexample :
  feedbackMessage
    (handleSubmit (Fulfilled okResponse)
       {| formData := adaDraft; status := idle; feedbackMessage := None |})
  <> Some (lit "Thanks for reaching out! I'll respond shortly.").
Proof.
  cbv. discriminate.
Qed.

(** C4: when the endpoint answers 400 with [{error: m}], whatever the string
    [m] (the relay's "Please provide name, email, and message." included),
    the flow ends failed (error), the feedback is exactly [m] and the draft
    keeps its three pre-submission values. *)
Theorem C4_server_reason_shown (st : State) (m : jsstring) :
  status (handleSubmit (Fulfilled (errorResponse m)) st) = error
  /\ feedbackMessage (handleSubmit (Fulfilled (errorResponse m)) st) = Some m
  /\ formData (handleSubmit (Fulfilled (errorResponse m)) st) = formData st
  /\ feedbackMessage
       (handleSubmit
          (Fulfilled (errorResponse (lit "Please provide name, email, and message."))) st)
     = Some (lit "Please provide name, email, and message.").
Proof.
  repeat split.
Qed.

(** C5, as amended: when the request fails (the promise of [fetch] rejects),
    the flow ends failed (error) and the draft is unmodified; the feedback is
    the message of the thrown error when the rejection is an Error instance
    (as the TypeError of a network failure is), and the generic
    "Something went wrong. Please try again." only when the thrown value is
    not an Error. *)
Theorem C5_request_fails (st : State) (reason : Thrown) :
  status (handleSubmit (Rejected reason) st) = error
  /\ formData (handleSubmit (Rejected reason) st) = formData st
  /\ feedbackMessage (handleSubmit (Rejected reason) st)
     = Some match reason with
            | ErrorInstance message => message
            | NotAnError => lit "Something went wrong. Please try again."
            end.
Proof.
  destruct reason; repeat split.
Qed.

(** C5 as stated fails: a network failure rejects with a TypeError whose
    message is the browser's ("Failed to fetch" in Chromium, "Load failed"
    in WebKit); that message is the feedback, it is neither of the two
    fallback texts of the component, and it differs between transports. *)
Lemma C5_counterexample :
  let st := {| formData := adaDraft; status := idle; feedbackMessage := None |} in
  feedbackMessage (handleSubmit (Rejected (ErrorInstance (lit "Failed to fetch"))) st)
  = Some (lit "Failed to fetch")
  /\ feedbackMessage (handleSubmit (Rejected (ErrorInstance (lit "Failed to fetch"))) st)
     <> Some (lit "Something went wrong. Please try again.")
  /\ feedbackMessage (handleSubmit (Rejected (ErrorInstance (lit "Failed to fetch"))) st)
     <> Some (lit "Failed to send your message.")
  /\ feedbackMessage (handleSubmit (Rejected (ErrorInstance (lit "Failed to fetch"))) st)
     <> feedbackMessage (handleSubmit (Rejected (ErrorInstance (lit "Load failed"))) st).
Proof.
  cbv. repeat split; discriminate.
Qed.

(** C10: a change event for the field [target_name] gives that field the
    event's value; every other field reads as before, and neither the status
    nor the feedback message changes. *)
Theorem C10_change_sets_one_field (e : ChangeEvent) (st : State) :
  (forall k : jsstring,
     get k (formData (handleChange e st))
     = if eqb k (target_name e) then Some (target_value e) else get k (formData st))
  /\ get (target_name e) (formData (handleChange e st)) = Some (target_value e)
  /\ status (handleChange e st) = status st
  /\ feedbackMessage (handleChange e st) = feedbackMessage st.
Proof.
  unfold handleChange; simpl. repeat split.
  - intros k. apply get_set.
  - rewrite get_set, eqb_refl. reflexivity.
Qed.

End ContactFacts.

(* ------------------------------------------------------------------ *)
(** ** One request at a time *)
(* ------------------------------------------------------------------ *)
Section SingleRequest.
Import JS Contact Spec.

Variable checkValidity : FormData -> bool.

Lemma inv_initial : inv initialForm.
Proof. reflexivity. Qed.

Lemma inv_step (f : Form) (ev : Event) : inv f -> inv (step checkValidity f ev).
Proof.
  unfold inv. intros H. destruct ev as [e| |o]; simpl.
  - exact H.
  - unfold submitDisabled.
    destruct (status (component f)) eqn:Est; simpl; try exact H;
      destruct (checkValidity (formData (component f))); simpl;
      rewrite ?Est; try exact H;
      rewrite H; reflexivity.
  - destruct (inflight f) as [|c rest] eqn:Ein; [rewrite Ein; exact H|]. simpl.
    destruct (status (component f)); try discriminate H.
    simpl in H. injection H as H. apply length_zero_iff_nil in H. subst rest.
    pose proof (settle_not_loading o (component f)) as Hs.
    destruct (status (handleSubmit_settle o (component f))); congruence.
Qed.

Lemma inv_run (evs : list Event) (f : Form) :
  inv f -> inv (run checkValidity evs f).
Proof.
  revert f. induction evs as [|ev evs IH]; intros f H; simpl.
  - exact H.
  - apply IH, inv_step, H.
Qed.

Lemma submit_while_loading (f : Form) (n : nat) :
  status (component f) = loading ->
  run checkValidity (repeat Submit n) f = f.
Proof.
  intros Hl. induction n as [|n IH]; simpl; [reflexivity|].
  unfold submitDisabled. rewrite Hl. simpl. exact IH.
Qed.

(** C3: in every state the form can reach, at most one request is
    outstanding; while the flow is sending there is exactly one, and
    activating the submit control again, any number of times, changes
    nothing: no request is issued. Outside the sending state none is
    outstanding. *)
Theorem C3_single_outstanding_request (evs : list Event) :
  let f := run checkValidity evs initialForm in
  length (inflight f) <= 1
  /\ match status (component f) with
     | loading =>
         length (inflight f) = 1
         /\ forall n, run checkValidity (repeat Submit n) f = f
     | _ => inflight f = []
     end.
Proof.
  cbv zeta.
  pose proof (@inv_run evs initialForm inv_initial) as H. unfold inv in H.
  destruct (status (component (run checkValidity evs initialForm))) eqn:Est;
    try (rewrite H; simpl; split; [lia | reflexivity]).
  split; [lia|]. split; [exact H|].
  intros n. apply submit_while_loading, Est.
Qed.

End SingleRequest.

(** The sending state is reached, and a second activation of the control
    leaves the single request alone. *)
Example sending_is_reachable :
  let f := Contact.run Spec.populated
             [Contact.Change {| Contact.target_name := JS.lit "name";
                                Contact.target_value := JS.lit "Ada" |};
              Contact.Change {| Contact.target_name := JS.lit "email";
                                Contact.target_value := JS.lit "ada@example.com" |};
              Contact.Change {| Contact.target_name := JS.lit "message";
                                Contact.target_value := JS.lit "Hello" |};
              Contact.Submit; Contact.Submit]
             Contact.initialForm in
  Contact.status (Contact.component f) = Contact.loading
  /\ Contact.issued f = 1
  /\ map Contact.requestBody (Contact.inflight f) = [Contact.JSON_stringify Spec.adaDraft].
Proof.
  repeat split.
Qed.

(** The guard is the button's: [handleSubmit] itself does not look at the
    status, and started from a sending state it would set up another
    request. *)
Remark handleSubmit_begin_unguarded (st : Contact.State) :
  Contact.status (fst (Contact.handleSubmit_begin st)) = Contact.loading
  /\ Contact.requestBody (snd (Contact.handleSubmit_begin st))
     = Contact.JSON_stringify (Contact.formData st).
Proof.
  split; reflexivity.
Qed.

(* ------------------------------------------------------------------ *)
(** ** The active section *)
(* ------------------------------------------------------------------ *)
Section NavFacts.
Import JS Nav.

Lemma deliver_app (xs ys : list jsstring) (p : Page) :
  deliver (xs ++ ys) p = deliver ys (deliver xs p).
Proof. unfold deliver. apply fold_left_app. Qed.

(** C2: a report overwrites the active section with the identifier it
    carries, whatever that string is and whatever the value was; after any
    sequence of reports the coordinator holds the identifier of the last one
    delivered (its previous value if none was). *)
Theorem C2_last_report_wins :
  (forall (sectionId : jsstring) (p : Page),
      read (report sectionId p) = sectionId /\ isOpen (report sectionId p) = isOpen p)
  /\ (forall (events : list jsstring) (p : Page),
        read (deliver events p) = last events (read p))
  /\ (forall (events : list jsstring) (sectionId : jsstring) (p : Page),
        read (deliver (events ++ [sectionId]) p) = sectionId).
Proof.
  split; [intros; split; reflexivity|].
  assert (Hlast : forall events p, read (deliver events p) = last events (read p)).
  { intros events. induction events as [|x events IH] using rev_ind; intros p.
    - reflexivity.
    - rewrite deliver_app, last_last. reflexivity. }
  split; [exact Hlast|].
  intros events sectionId p. rewrite Hlast. apply last_last.
Qed.

Lemma getElementById_present (document : Document) (id : jsstring) :
  In id document -> getElementById document id = Some id.
Proof.
  unfold getElementById. induction document as [|x document IH]; simpl.
  - intros [].
  - intros [->|Hin].
    + now rewrite eqb_refl.
    + destruct (eqb id x) eqn:E.
      * apply eqb_eq in E. now subst.
      * now apply IH.
Qed.

Lemma getElementById_absent (document : Document) (id : jsstring) :
  ~ In id document -> getElementById document id = None.
Proof.
  unfold getElementById. intros Hnot.
  destruct (find (eqb id) document) as [x|] eqn:E; [|reflexivity].
  apply find_some in E as [Hin Heq]. apply eqb_eq in Heq. now subst.
Qed.

(** C7: when the element of section [sectionId] is in the page, activating the
    navigation entry for it makes it the active section, closes the drawer,
    and performs, in this order, the scroll request, the write of the active
    section and the closing of the drawer; the same holds right after that section's
    own observer has reported that it is not intersecting. *)
Theorem C7_navigation_sets_active (document : Document) (sectionId : jsstring) (p : Page) :
  In sectionId document ->
  read (scrollToSection document sectionId p) = sectionId
  /\ isOpen (scrollToSection document sectionId p) = false
  /\ trace (scrollToSection document sectionId p)
     = trace p ++ [ScrollIntoView sectionId; SetActiveSection sectionId; SetIsOpen false]
  /\ read (scrollToSection document sectionId
             (observerCallback sectionId [{| isIntersecting := false |}] p)) = sectionId.
Proof.
  intros Hin. unfold scrollToSection.
  rewrite (getElementById_present _ _ Hin). simpl.
  repeat split.
  rewrite <- !app_assoc. reflexivity.
Qed.

Lemma C7_navigation_sets_active_witness :
  read (scrollToSection navItems (lit "contact") initialPage) = lit "contact"
  /\ trace (scrollToSection navItems (lit "contact") initialPage)
     = [ScrollIntoView (lit "contact"); SetActiveSection (lit "contact"); SetIsOpen false].
Proof.
  assert (Hin : In (lit "contact") navItems) by (cbv; tauto).
  pose proof (@C7_navigation_sets_active navItems (lit "contact") initialPage Hin)
    as (Hread & _ & Htrace & _).
  split; [exact Hread | exact Htrace].
Defined.

(** C8: when no element of the page has the identifier, navigating to it
    changes nothing: the active section, the drawer and the trace of requests
    are as before (no scroll, no write), and the action returns normally. *)
Theorem C8_missing_target_is_noop (document : Document) (id : jsstring) (p : Page) :
  ~ In id document ->
  scrollToSection document id p = p.
Proof.
  intros Hnot. unfold scrollToSection.
  now rewrite (getElementById_absent _ _ Hnot).
Qed.

Lemma C8_missing_target_is_noop_witness :
  scrollToSection navItems (lit "about") initialPage = initialPage.
Proof.
  apply (@C8_missing_target_is_noop navItems (lit "about") initialPage).
  cbv. intros H. repeat (destruct H as [H|H]; [discriminate H|]). exact H.
Defined.

End NavFacts.

(* ------------------------------------------------------------------ *)
(** ** The form against the relay *)
(* ------------------------------------------------------------------ *)
Section EndToEnd.
Import JS Spec.

Example trim_inner_space_kept :
  trim (lit "  Ada Lovelace ") = lit "Ada Lovelace"
  /\ trim ([160; 9; 8195; 65279]%N) = [].
Proof. split; reflexivity. Qed.

(** A complete draft is relayed: one email, built from the trimmed fields,
    and the answer is [{ok: true}] with status 200. *)
Example relay_delivers :
  Relay.POST goodEnv (fun _ => true)
    {| Relay.requestBody := Some (Contact.JSON_stringify adaDraft) |}
  = ([Relay.EmailsSend
        {| Relay.from := lit "site@example.com";
           Relay.to := lit "site@example.com";
           Relay.replyTo := lit "ada@example.com";
           Relay.subject := lit "New portfolio inquiry from Ada";
           Relay.text := lit "Name: Ada" ++ [10%N] ++ lit "Email: ada@example.com"
                           ++ [10%N; 10%N] ++ lit "Hello" |}],
     {| Relay.status := 200; Relay.body := JObject [(lit "ok", JBool true)] |}).
Proof. reflexivity. Qed.

(** When the provider rejects the send, the failure is logged and the
    answer is the catch-all 500. *)
Example relay_send_rejected :
  Relay.POST goodEnv (fun _ => false)
    {| Relay.requestBody := Some (Contact.JSON_stringify adaDraft) |}
  = ([Relay.EmailsSend
        {| Relay.from := lit "site@example.com";
           Relay.to := lit "site@example.com";
           Relay.replyTo := lit "ada@example.com";
           Relay.subject := lit "New portfolio inquiry from Ada";
           Relay.text := lit "Name: Ada" ++ [10%N] ++ lit "Email: ada@example.com"
                           ++ [10%N; 10%N] ++ lit "Hello" |};
      Relay.ConsoleError Relay.SendRejected],
     unableToSend).
Proof. reflexivity. Qed.

(** The specification's second scenario: a draft whose message is blank,
    submitted to the configured relay, ends failed with the relay's reason
    as feedback and the draft as it was. *)
Example blank_message_round_trip :
  let draft := [(lit "name", lit "Ada"); (lit "email", lit "ada@example.com");
                (lit "message", lit "   ")] in
  let st := {| Contact.formData := draft; Contact.status := Contact.idle;
               Contact.feedbackMessage := None |} in
  let answer := relayAnswers goodEnv (fun _ => true) (snd (Contact.handleSubmit_begin st)) in
  Contact.handleSubmit answer st
  = {| Contact.formData := draft;
       Contact.status := Contact.error;
       Contact.feedbackMessage := Some (lit "Please provide name, email, and message.") |}.
Proof. reflexivity. Qed.

End EndToEnd.

(* ------------------------------------------------------------------ *)
(** ** Trimming *)
(* ------------------------------------------------------------------ *)
Section TrimFacts.
Import JS Props.

Lemma trimStart_noLeading (s : jsstring) : noLeading (trimStart s).
Proof.
  induction s as [|c s IH]; simpl; [exact I|].
  destruct (isWhiteSpace c) eqn:E; [exact IH|]. simpl. exact E.
Qed.

Lemma trimStart_fixed (s : jsstring) : noLeading s -> trimStart s = s.
Proof.
  destruct s as [|c s]; simpl; [reflexivity|]. now intros ->.
Qed.

Lemma trimStart_snoc (s : jsstring) (c : N) :
  isWhiteSpace c = false -> trimStart (s ++ [c]) = trimStart s ++ [c].
Proof.
  intros Hc. induction s as [|a s IH]; simpl.
  - now rewrite Hc.
  - destruct (isWhiteSpace a); [exact IH | reflexivity].
Qed.

Lemma trimEnd_noLeading (s : jsstring) : noLeading s -> noLeading (trimEnd s).
Proof.
  destruct s as [|c s]; simpl; [intros _; exact I|].
  intros Hc. unfold trimEnd. simpl.
  rewrite (@trimStart_snoc (rev s) c Hc), rev_app_distr. simpl. exact Hc.
Qed.

Lemma trim_noLeading (s : jsstring) : noLeading (trim s).
Proof. apply trimEnd_noLeading, trimStart_noLeading. Qed.

Lemma trim_noTrailing (s : jsstring) : noLeading (rev (trim s)).
Proof.
  unfold trim, trimEnd. rewrite rev_involutive. apply trimStart_noLeading.
Qed.

Lemma trim_idempotent (s : jsstring) : trim (trim s) = trim s.
Proof.
  unfold trim at 1.
  rewrite (@trimStart_fixed (trim s) (trim_noLeading s)).
  unfold trimEnd. rewrite (@trimStart_fixed (rev (trim s)) (trim_noTrailing s)).
  apply rev_involutive.
Qed.

End TrimFacts.

(* ------------------------------------------------------------------ *)
(** ** Every outcome of the relay *)
(* ------------------------------------------------------------------ *)
Section RelayOutcomes.
Import JS Relay Spec Props.

Lemma bind_throw {A B} (r : Raised) (k : A -> M B) : bind (throw r) k = throw r.
Proof. reflexivity. Qed.

Lemma field_trim_cases (payload : json) (k : jsstring) :
  field_trim payload k = throw TypeError
  \/ field_trim payload k = ret None
  \/ exists s, fieldOf payload k = Some (JString s)
               /\ field_trim payload k = ret (Some (trim s)).
Proof.
  unfold field_trim, fieldOf.
  destruct (getProp payload k) as [[v|]|]; auto.
  destruct v; auto. right; right. eauto.
Qed.

Lemma isFalsy_false (o : option jsstring) :
  isFalsy o = false -> exists c s, o = Some (c :: s).
Proof.
  destruct o as [[|c s]|]; simpl; try discriminate. eauto.
Qed.

(** What the [try] block does on a parsed body: it throws a TypeError, or
    answers 400, or hands exactly one email built from the three trimmed,
    non-empty fields to the provider and answers according to it. *)
Lemma POST_try_cases (from_email to_email : jsstring) (resend : Email -> bool)
  (request : Request) (payload : json) :
  requestBody request = Some payload ->
  POST_try from_email to_email resend request = throw TypeError
  \/ POST_try from_email to_email resend request = ret badRequest
  \/ exists n e m,
       fieldOf payload (lit "name") = Some (JString n)
       /\ fieldOf payload (lit "email") = Some (JString e)
       /\ fieldOf payload (lit "message") = Some (JString m)
       /\ blank n = false /\ blank e = false /\ blank m = false
       /\ POST_try from_email to_email resend request
          = let mail := inquiry from_email to_email (trim n) (trim e) (trim m) in
            ([EmailsSend mail], if resend mail then inl okSent else inr SendRejected).
Proof.
  intros Hbody. unfold POST_try, request_json. rewrite Hbody, bind_ret.
  destruct (field_trim_cases payload (lit "name")) as [-> | [-> | (n & Fn & ->)]];
    [left; reflexivity | |];
  rewrite bind_ret;
  (destruct (field_trim_cases payload (lit "email")) as [-> | [-> | (e & Fe & ->)]];
    [left; reflexivity | |]);
  rewrite bind_ret;
  (destruct (field_trim_cases payload (lit "message")) as [-> | [-> | (m & Fm & ->)]];
    [left; reflexivity | |]);
  rewrite bind_ret;
  try (right; left; simpl; rewrite ?orb_true_r; reflexivity).
  destruct (isFalsy (Some (trim n)) || isFalsy (Some (trim e)) || isFalsy (Some (trim m)))
    eqn:Hf.
  - right; left. reflexivity.
  - right; right.
    apply orb_false_elim in Hf as [Hf Hm]. apply orb_false_elim in Hf as [Hn He].
    exists n, e, m. unfold blank.
    simpl in Hn, He, Hm.
    destruct (trim n) as [|cn tn] eqn:En; [discriminate|].
    destruct (trim e) as [|ce te] eqn:Ee; [discriminate|].
    destruct (trim m) as [|cm tm] eqn:Em; [discriminate|].
    repeat (split; [assumption || reflexivity|]).
    unfold emails_send, inquiry, orEmpty. cbv zeta.
    match goal with |- context [resend ?mail] => destruct (resend mail) end;
      reflexivity.
Qed.

Lemma POST_configured (env : Env) (resend : Email -> bool) (request : Request) :
  configured env = true ->
  POST env resend request
  = match POST_try (orEmpty (FROM_EMAIL env)) (orEmpty (TO_EMAIL env)) resend request with
    | (log, inl response) => (log, response)
    | (log, inr raised) => (log ++ [ConsoleError raised], unableToSend)
    end.
Proof.
  intros Hcfg. unfold POST. rewrite (configured_guard env Hcfg).
  destruct (POST_try _ _ resend request) as [log [response|raised]]; reflexivity.
Qed.

Lemma POST_unconfigured (env : Env) (resend : Email -> bool) (request : Request) :
  configured env = false ->
  POST env resend request = ([], incompleteSettings).
Proof.
  intros Hcfg. unfold POST. rewrite (unconfigured_guard env Hcfg). reflexivity.
Qed.





(** Every email the relay hands to the provider carries the configured,
    non-empty sender and recipient, and a reply-to address that is not empty
    and has no whitespace left at either end. *)
Theorem POST_emails_are_clean
  (env : Env) (resend : Email -> bool) (request : Request) (mail : Email) :
  In (EmailsSend mail) (fst (POST env resend request)) ->
  Some (from mail) = FROM_EMAIL env
  /\ Some (to mail) = TO_EMAIL env
  /\ from mail <> [] /\ to mail <> [] /\ replyTo mail <> []
  /\ trim (replyTo mail) = replyTo mail.
Proof.
  destruct (configured env) eqn:Hcfg.
  2:{ rewrite (@POST_unconfigured env resend request Hcfg). intros []. }
  rewrite (@POST_configured env resend request Hcfg).
  pose proof Hcfg as Hc. unfold configured in Hc.
  apply andb_prop in Hc as [Hf Ht]. apply negb_true_iff in Hf, Ht.
  apply isFalsy_false in Hf as (cf & sf & Hf). apply isFalsy_false in Ht as (ct & st & Ht).
  rewrite Hf, Ht. simpl orEmpty.
  destruct (requestBody request) as [payload|] eqn:Hbody.
  - destruct (@POST_try_cases (cf :: sf) (ct :: st) resend request payload Hbody)
      as [-> | [-> | (n & e & m & _ & _ & _ & _ & He & _ & ->)]];
      try (simpl; intros H; repeat (destruct H as [H|H]); try discriminate H;
           contradiction).
    cbv zeta.
    assert (Hin : forall mail0 : Email,
               In (EmailsSend mail) (fst (let '(log, r) :=
                     ([EmailsSend mail0],
                      if resend mail0 then inl okSent else @inr Response Raised SendRejected)
                   in match r with
                      | inl response => (log, response)
                      | inr raised => (log ++ [ConsoleError raised], unableToSend)
                      end)) -> mail = mail0).
    { intros mail0. destruct (resend mail0); simpl; intros H;
        repeat (destruct H as [H|H]);
        try (injection H as <-; reflexivity); try discriminate H; contradiction. }
    intros H. apply Hin in H. subst mail. simpl.
    unfold blank in He.
    repeat split; try discriminate.
    + destruct (trim e); [discriminate He | discriminate].
    + apply trim_idempotent.
  - unfold POST_try, request_json. rewrite Hbody. simpl.
    intros [H|[]]; discriminate H.
Qed.

Lemma POST_emails_are_clean_witness :
  trim (lit "ada@example.com") = lit "ada@example.com".
Proof.
  apply (@POST_emails_are_clean goodEnv (fun _ => true)
           {| requestBody :=
                Some (JObject [(lit "name", JString (lit " Ada "));
                               (lit "email", JString (lit "ada@example.com "));
                               (lit "message", JString (lit "Hello"))]) |}
           (inquiry (lit "site@example.com") (lit "site@example.com")
              (lit "Ada") (lit "ada@example.com") (lit "Hello"))).
  left. reflexivity.
Defined.

Lemma configured_false_iff (env : Env) :
  configured env = false
  <-> isFalsy (RESEND_FROM_EMAIL env) = true \/ CONTACT_TO_EMAIL env = Some [].
Proof.
  unfold configured, TO_EMAIL, FROM_EMAIL.
  destruct (RESEND_FROM_EMAIL env) as [[|c s]|], (CONTACT_TO_EMAIL env) as [[|c' s']|];
    simpl; split; intros H; auto;
    try discriminate H; destruct H as [H|H]; discriminate H.
Qed.

(** The relay refuses every request with the configuration guard's 500,
    before reading it, exactly when the sender is unset or empty or the
    recipient variable is set to the empty string; an unset recipient falls
    back to the sender, an empty one does not. *)
Theorem POST_refuses_iff_misconfigured (env : Env) :
  (forall (resend : Email -> bool) (request : Request),
      POST env resend request = ([], incompleteSettings))
  <-> (isFalsy (RESEND_FROM_EMAIL env) = true \/ CONTACT_TO_EMAIL env = Some []).
Proof.
  rewrite <- configured_false_iff. split.
  - intros H. destruct (configured env) eqn:Hcfg; [|reflexivity].
    specialize (H (fun _ => true) {| requestBody := None |}).
    rewrite (@POST_configured env _ _ Hcfg) in H. discriminate H.
  - intros Hcfg resend request. now apply POST_unconfigured.
Qed.

End RelayOutcomes.

(* ------------------------------------------------------------------ *)
(** ** The draft as an object *)
(* ------------------------------------------------------------------ *)
Section DraftFacts.
Import JS Contact Spec Props.

Lemma existsb_eqb_In (k : jsstring) (l : list jsstring) :
  existsb (eqb k) l = true <-> In k l.
Proof.
  rewrite existsb_exists. split.
  - intros (x & Hin & Heq). apply eqb_eq in Heq. now subst.
  - intros Hin. exists k. split; [exact Hin | apply eqb_refl].
Qed.

Lemma set_keys (k v : jsstring) (fd : FormData) :
  keys (set k v fd) = if existsb (eqb k) (keys fd) then keys fd else keys fd ++ [k].
Proof.
  unfold keys. induction fd as [|[k0 v0] fd IH]; simpl; [reflexivity|].
  destruct (eqb k k0) eqn:E; simpl; [reflexivity|].
  rewrite IH. destruct (existsb (eqb k) (map fst fd)); reflexivity.
Qed.

Lemma set_NoDup (k v : jsstring) (fd : FormData) :
  NoDup (keys fd) -> NoDup (keys (set k v fd)).
Proof.
  intros Hnd. rewrite set_keys.
  destruct (existsb (eqb k) (keys fd)) eqn:E; [exact Hnd|].
  apply NoDup_app; [exact Hnd | repeat constructor; intros [] | ].
  intros x Hx [<-|[]].
  apply existsb_eqb_In in Hx. congruence.
Qed.

Lemma set_set (k v1 v2 : jsstring) (fd : FormData) :
  set k v2 (set k v1 fd) = set k v2 fd.
Proof.
  induction fd as [|[k0 v0] fd IH]; simpl.
  - now rewrite eqb_refl.
  - destruct (eqb k k0) eqn:E; simpl; rewrite E; [reflexivity|].
    now rewrite IH.
Qed.

(** Two changes of the same field leave what the second alone leaves: the
    earlier value is gone and the object has no trace of it. *)
Theorem change_overwrites (e1 e2 : ChangeEvent) (st : State) :
  target_name e1 = target_name e2 ->
  handleChange e2 (handleChange e1 st) = handleChange e2 st.
Proof.
  intros Hn. unfold handleChange, setFormData. simpl.
  rewrite Hn, set_set. reflexivity.
Qed.

Lemma change_overwrites_witness :
  handleChange {| target_name := lit "name"; target_value := lit "Ada L" |}
    (handleChange {| target_name := lit "name"; target_value := lit "Ada" |} initialState)
  = handleChange {| target_name := lit "name"; target_value := lit "Ada L" |} initialState.
Proof.
  apply (@change_overwrites
           {| target_name := lit "name"; target_value := lit "Ada" |}
           {| target_name := lit "name"; target_value := lit "Ada L" |}
           initialState).
  reflexivity.
Defined.

(** Changes of two different fields can come in either order: every field
    of the draft reads the same afterwards, and status and feedback are
    untouched either way. *)
Theorem changes_commute (e1 e2 : ChangeEvent) (st : State) (k : jsstring) :
  target_name e1 <> target_name e2 ->
  get k (formData (handleChange e1 (handleChange e2 st)))
  = get k (formData (handleChange e2 (handleChange e1 st)))
  /\ status (handleChange e1 (handleChange e2 st)) = status st
  /\ feedbackMessage (handleChange e1 (handleChange e2 st)) = feedbackMessage st.
Proof.
  intros Hne. unfold handleChange, setFormData. simpl.
  repeat split. rewrite !get_set.
  destruct (eqb k (target_name e1)) eqn:E1, (eqb k (target_name e2)) eqn:E2;
    try reflexivity.
  apply eqb_eq in E1, E2. congruence.
Qed.

Lemma changes_commute_witness :
  get (lit "email")
    (formData
       (handleChange {| target_name := lit "name"; target_value := lit "Ada" |}
          (handleChange {| target_name := lit "email"; target_value := lit "a@b.c" |}
             initialState)))
  = get (lit "email")
      (formData
         (handleChange {| target_name := lit "email"; target_value := lit "a@b.c" |}
            (handleChange {| target_name := lit "name"; target_value := lit "Ada" |}
               initialState))).
Proof.
  apply (@changes_commute
           {| target_name := lit "name"; target_value := lit "Ada" |}
           {| target_name := lit "email"; target_value := lit "a@b.c" |}
           initialState (lit "email")).
  discriminate.
Defined.

(** Reading a member of the serialised draft gives the draft's field as a
    JSON string, when no property name occurs twice in the draft. *)
Lemma lookup_stringify (k : jsstring) (fd : FormData) :
  NoDup (keys fd) ->
  fieldOf (JSON_stringify fd) k = option_map JString (get k fd).
Proof.
  unfold fieldOf, JSON_stringify, keys. simpl.
  induction fd as [|[k0 v0] fd IH]; simpl; [reflexivity|].
  intros Hnd. inversion Hnd as [|? ? Hnotin Hnd']; subst.
  rewrite (IH Hnd').
  destruct (eqb k k0) eqn:E.
  - apply eqb_eq in E. subst k0.
    destruct (get k fd) as [v|] eqn:G; [|reflexivity].
    exfalso. apply Hnotin. clear -G.
    induction fd as [|[k1 v1] fd IH]; simpl in *; [discriminate|].
    destruct (eqb k k1) eqn:E; [left; apply eqb_eq in E; now subst | right; auto].
  - destruct (get k fd); reflexivity.
Qed.

Section Reachable.

Variable checkValidity : FormData -> bool.

Lemma shaped_step (f : Form) (ev : Event) : shaped f -> shaped (step checkValidity f ev).
Proof.
  intros [Hnd (extra & Hk)]. destruct ev as [e| |o]; simpl.
  - split; simpl.
    + now apply set_NoDup.
    + rewrite set_keys, Hk.
      destruct (existsb (eqb (target_name e)) (keys emptyForm ++ extra)).
      * now exists extra.
      * exists (extra ++ [target_name e]). exact (eq_sym (app_assoc _ _ _)).
  - destruct (submitDisabled (component f)); [now split; [|exists extra]|].
    destruct (checkValidity (formData (component f))); now split; [|exists extra].
  - destruct (inflight f); [now split; [|exists extra]|].
    unfold shaped, handleSubmit_settle; simpl.
    destruct (afterFetch o); simpl.
    + split; [exact Hnd | now exists extra].
    + split; [|now exists []].
      repeat constructor; simpl; intros H;
        repeat (destruct H as [H|H]; [discriminate H|]); exact H.
Qed.

Lemma shaped_run (evs : list Event) (f : Form) :
  shaped f -> shaped (run checkValidity evs f).
Proof.
  revert f. induction evs as [|ev evs IH]; intros f H; simpl; [exact H|].
  apply IH, shaped_step, H.
Qed.

Lemma shaped_initial : shaped initialForm.
Proof.
  split; [|now exists []].
  repeat constructor; simpl; intros H;
    repeat (destruct H as [H|H]; [discriminate H|]); exact H.
Qed.


(** The request a submission issues carries the draft as it is then: each
    member of the body is the JSON string of the field of that name. *)
Theorem request_body_carries_draft (evs : list Event) (k : jsstring) :
  let st := component (run checkValidity evs initialForm) in
  fieldOf (requestBody (snd (handleSubmit_begin st))) k
  = option_map JString (get k (formData st)).
Proof.
  cbv zeta. simpl.
  apply lookup_stringify.
  apply (@shaped_run evs initialForm shaped_initial).
Qed.

End Reachable.

End DraftFacts.

(* ------------------------------------------------------------------ *)
(** ** The flow over time *)
(* ------------------------------------------------------------------ *)
Section FlowFacts.
Import JS Contact Spec Props.

Variable checkValidity : FormData -> bool.

(** Editing alone does nothing but edit: after any number of change events
    the status, the feedback, the outstanding requests and the count of
    requests are what they were. *)
Theorem edits_never_send (evs : list Event) (f : Form) :
  forallb isChange evs = true ->
  status (component (run checkValidity evs f)) = status (component f)
  /\ feedbackMessage (component (run checkValidity evs f)) = feedbackMessage (component f)
  /\ inflight (run checkValidity evs f) = inflight f
  /\ issued (run checkValidity evs f) = issued f.
Proof.
  revert f. induction evs as [|ev evs IH]; intros f H; simpl in *.
  - repeat split.
  - apply andb_prop in H as [Hev Hrest].
    destruct ev as [e| |o]; try discriminate Hev.
    destruct (IH (step checkValidity f (Change e)) Hrest) as (H1 & H2 & H3 & H4).
    simpl in *. repeat split; assumption.
Qed.

Lemma feedbackInv_step (f : Form) (ev : Event) :
  inv f -> feedbackInv f -> feedbackInv (step checkValidity f ev).
Proof.
  unfold feedbackInv, inv. intros Hinv H. destruct ev as [e| |o]; simpl.
  - exact H.
  - unfold submitDisabled.
    destruct (status (component f)) eqn:Est; simpl; try (rewrite Est; exact H);
      destruct (checkValidity (formData (component f))); simpl;
      rewrite ?Est; try exact H; split; try reflexivity; lia.
  - destruct (inflight f) as [|c rest] eqn:Ein; [exact H|]. simpl.
    destruct (status (component f)); try discriminate Hinv.
    destruct H as [_ Hpos].
    unfold handleSubmit_settle. destruct (afterFetch o); simpl; split;
      try discriminate; exact Hpos.
Qed.

Lemma feedbackInv_run (evs : list Event) (f : Form) :
  inv f -> feedbackInv f -> feedbackInv (run checkValidity evs f).
Proof.
  revert f. induction evs as [|ev evs IH]; intros f Hi H; simpl; [exact H|].
  apply IH; [now apply inv_step | now apply feedbackInv_step].
Qed.

(** In every state the form can reach: it is idle exactly as long as no
    request was ever issued, and then no feedback is set; while it is
    sending the feedback is cleared; and once a request has settled, in
    success as in error, a feedback message is set. *)
Theorem feedback_follows_status (evs : list Event) :
  let f := run checkValidity evs initialForm in
  match status (component f) with
  | idle => feedbackMessage (component f) = None /\ issued f = 0
  | loading => feedbackMessage (component f) = None /\ 0 < issued f
  | success | error => feedbackMessage (component f) <> None /\ 0 < issued f
  end.
Proof.
  cbv zeta. apply (@feedbackInv_run evs initialForm); [apply inv_initial|].
  split; reflexivity.
Qed.

(** What is typed while a request is outstanding is lost when the request
    succeeds, since the draft is then reset whatever it holds, and is kept,
    together with what was there, when the request fails. *)
Theorem edits_in_flight (edits : list Event) (o : FetchOutcome) (f : Form) :
  forallb isChange edits = true ->
  inflight f <> [] ->
  formData (component (run checkValidity (edits ++ [Settle o]) f))
  = match afterFetch o with
    | None => [(lit "name", []); (lit "email", []); (lit "message", [])]
    | Some _ => formData (component (run checkValidity edits f))
    end.
Proof.
  intros Hedits Hfl. unfold run. rewrite fold_left_app. simpl.
  destruct (@edits_never_send edits f Hedits) as (_ & _ & Hin & _).
  unfold run in Hin. rewrite Hin.
  destruct (inflight f) as [|c rest]; [congruence|].
  simpl. unfold handleSubmit_settle. destruct (afterFetch o); reflexivity.
Qed.

End FlowFacts.

Lemma edits_never_send_witness :
  Contact.issued
    (Contact.run Spec.populated
       [Contact.Change {| Contact.target_name := JS.lit "name";
                          Contact.target_value := JS.lit "Ada" |};
        Contact.Change {| Contact.target_name := JS.lit "name";
                          Contact.target_value := JS.lit "Ada L" |}]
       Contact.initialForm) = 0.
Proof.
  apply (@edits_never_send Spec.populated
           [Contact.Change {| Contact.target_name := JS.lit "name";
                              Contact.target_value := JS.lit "Ada" |};
            Contact.Change {| Contact.target_name := JS.lit "name";
                              Contact.target_value := JS.lit "Ada L" |}]
           Contact.initialForm).
  reflexivity.
Defined.

Lemma edits_in_flight_witness :
  Contact.formData (Contact.component
    (Contact.run Spec.populated
       ([Contact.Change {| Contact.target_name := JS.lit "message";
                           Contact.target_value := JS.lit "P.S." |}]
          ++ [Contact.Settle (Contact.Fulfilled Spec.okResponse)])
       (Contact.run Spec.populated
          [Contact.Change {| Contact.target_name := JS.lit "name";
                             Contact.target_value := JS.lit "Ada" |};
           Contact.Change {| Contact.target_name := JS.lit "email";
                             Contact.target_value := JS.lit "ada@example.com" |};
           Contact.Change {| Contact.target_name := JS.lit "message";
                             Contact.target_value := JS.lit "Hello" |};
           Contact.Submit]
          Contact.initialForm)))
  = Contact.emptyForm.
Proof.
  apply (@edits_in_flight Spec.populated
           [Contact.Change {| Contact.target_name := JS.lit "message";
                              Contact.target_value := JS.lit "P.S." |}]
           (Contact.Fulfilled Spec.okResponse)).
  - reflexivity.
  - discriminate.
Defined.

(* ------------------------------------------------------------------ *)
(** ** Failure texts and the form against the relay *)
(* ------------------------------------------------------------------ *)
Section FailureFacts.
Import JS Contact Spec Props.

(** A response outside 200-299 whose body gives no reason (it is not JSON,
    or is null, or is an object without an [error] member or with a null
    one, or is no object at all) ends the flow failed with
    "Failed to send your message." and leaves the draft alone. *)
Theorem failure_without_reason (st : State) (r : Response) :
  ok r = false ->
  match responseBody r with
  | None | Some JNull => True
  | Some (JObject members) =>
      lookup (lit "error") members = None \/ lookup (lit "error") members = Some JNull
  | Some _ => True
  end ->
  handleSubmit (Fulfilled r) st
  = {| formData := formData st;
       status := error;
       feedbackMessage := Some (lit "Failed to send your message.") |}.
Proof.
  intros Hok Hbody.
  unfold handleSubmit, handleSubmit_settle, afterFetch. rewrite Hok. simpl.
  unfold setFeedbackMessage, setStatus. simpl. f_equal. f_equal.
  unfold json_or_null, errorText.
  destruct (responseBody r) as [[| | | | |members]|]; simpl; try reflexivity.
  destruct Hbody as [-> | ->]; reflexivity.
Qed.

Lemma failure_without_reason_witness :
  feedbackMessage
    (handleSubmit
       (Fulfilled {| responseStatus := 502; responseBody := None |})
       {| formData := adaDraft; status := idle; feedbackMessage := None |})
  = Some (lit "Failed to send your message.").
Proof.
  rewrite (@failure_without_reason
             {| formData := adaDraft; status := idle; feedbackMessage := None |}
             {| responseStatus := 502; responseBody := None |} eq_refl I).
  reflexivity.
Defined.



End FailureFacts.

(* ------------------------------------------------------------------ *)
(** ** The page as a whole *)
(* ------------------------------------------------------------------ *)
Section PageFacts.
Import JS Nav Page.

(** Whatever string the coordinator holds, at most one navigation entry is
    highlighted: the one whose id it is, and none when it is not the id of an
    entry. *)
Theorem highlight_follows_active (p : Page) :
  (exists i, activeSection p = itemId i /\ highlighted p = [i])
  \/ (~ In (activeSection p) navItems /\ highlighted p = []).
Proof.
  unfold highlighted, isActive, items.
  destruct (eqb (activeSection p) (lit "home")) eqn:E1.
  { apply eqb_eq in E1. left. exists Home. rewrite E1. split; reflexivity. }
  destruct (eqb (activeSection p) (lit "skills")) eqn:E2.
  { apply eqb_eq in E2. left. exists Skills. rewrite E2. split; reflexivity. }
  destruct (eqb (activeSection p) (lit "projects")) eqn:E3.
  { apply eqb_eq in E3. left. exists Projects. rewrite E3. split; reflexivity. }
  destruct (eqb (activeSection p) (lit "contact")) eqn:E4.
  { apply eqb_eq in E4. left. exists Contact. rewrite E4. split; reflexivity. }
  right. split.
  - apply eqb_neq in E1, E2, E3, E4.
    intros [H|[H|[H|[H|[]]]]]; congruence.
  - cbn [filter itemId]. now rewrite E1, E2, E3, E4.
Qed.

(** Every navigation entry has its section in the page App renders:
    clicking it, in any state, makes exactly that entry the highlighted one,
    closes the drawer and asks for the scroll to that section. *)
Theorem every_entry_navigates (p : Page) (i : NavItem) :
  highlighted (step p (NavClick i)) = [i]
  /\ isOpen (step p (NavClick i)) = false
  /\ trace (step p (NavClick i))
     = trace p ++ [ScrollIntoView (itemId i); SetActiveSection (itemId i); SetIsOpen false].
Proof.
  destruct i; simpl; repeat split; rewrite <- !app_assoc; reflexivity.
Qed.

Lemma step_read (p : Page) (ev : Event) :
  read (step p ev) = match written ev with Some id => id | None => read p end.
Proof.
  destruct ev as [s [|entry rest]|i| |]; simpl; try reflexivity.
  - destruct (isIntersecting entry); reflexivity.
  - destruct i; reflexivity.
  - destruct (isOpen p); reflexivity.
Qed.

(** Across both writers, the last write wins: after any events the active
    section is the id of the last navigation click or intersecting
    observation, and the value before them if there was none. Observations
    whose first entry is not intersecting, the toggle and the overlay do not
    write. *)
Theorem active_is_last_written (evs : list Event) (p : Page) :
  read (run evs p) = lastWritten evs (read p).
Proof.
  revert p. induction evs as [|ev evs IH]; intros p; simpl; [reflexivity|].
  unfold run in *. simpl. rewrite IH, step_read. reflexivity.
Qed.

Lemma step_known (p : Page) (ev : Event) :
  (exists i, activeSection p = itemId i) ->
  exists i, activeSection (step p ev) = itemId i.
Proof.
  intros Hp. pose proof (step_read p ev) as H. unfold read in H. rewrite H.
  destruct ev as [s [|entry rest]|i| |]; simpl; try exact Hp.
  - destruct (isIntersecting entry); [|exact Hp].
    destruct s; [exists Home | exists Skills | exists Projects | exists Contact];
      reflexivity.
  - now exists i.
Qed.

(** From the initial page, whatever the observers, the clicks and the drawer
    do, the active section is always the id of a navigation entry, and
    exactly that one entry is highlighted. *)
Theorem exactly_one_highlighted (evs : list Event) :
  exists i, activeSection (run evs initialPage) = itemId i
            /\ highlighted (run evs initialPage) = [i].
Proof.
  assert (Hk : forall p, (exists i, activeSection p = itemId i) ->
                         exists i, activeSection (run evs p) = itemId i).
  { induction evs as [|ev evs IH]; intros p Hp; [exact Hp|].
    apply IH, step_known, Hp. }
  destruct (Hk initialPage) as [i Hi]; [now exists Home|].
  exists i. split; [exact Hi|].
  destruct (highlight_follows_active (run evs initialPage))
    as [(j & Hj & Hh) | (Hnot & _)].
  - rewrite Hh. f_equal. rewrite Hi in Hj.
    destruct i, j; try reflexivity; discriminate Hj.
  - exfalso. apply Hnot. rewrite Hi. destruct i; simpl; tauto.
Qed.

(** Only the toggle button opens the drawer: without a toggle among the
    events, a closed drawer stays closed. *)
Theorem only_toggle_opens_drawer (evs : list Event) (p : Page) :
  forallb (fun ev => negb (isToggle ev)) evs = true ->
  isOpen p = false ->
  isOpen (run evs p) = false.
Proof.
  revert p. induction evs as [|ev evs IH]; intros p Hevs Hp; simpl; [exact Hp|].
  simpl in Hevs. apply andb_prop in Hevs as [Hev Hrest].
  apply IH; [exact Hrest|].
  destruct ev as [s [|entry rest]|i| |]; simpl; try exact Hp; try discriminate Hev.
  - destruct (isIntersecting entry); exact Hp.
  - destruct i; reflexivity.
  - now rewrite Hp.
Qed.

Lemma only_toggle_opens_drawer_witness :
  isOpen (run [Observed SkillsSection [{| isIntersecting := true |}];
               NavClick Projects; OverlayClick] initialPage) = false.
Proof.
  apply (@only_toggle_opens_drawer
           [Observed SkillsSection [{| isIntersecting := true |}];
            NavClick Projects; OverlayClick] initialPage); reflexivity.
Defined.

End PageFacts.

(* ------------------------------------------------------------------ *)
(** ** ImageWithFallback *)
(* ------------------------------------------------------------------ *)
Section ImageFacts.
Import JS Image.

Lemma handleError_currentSrc (props : Props) (st : State) :
  currentSrc (handleError props st)
  = match currentSrc st with
    | StringSrc _ => StringSrc (fallbackOf props)
    | StaticImport path => StaticImport path
    end.
Proof.
  unfold handleError. destruct (currentSrc st) as [s|path] eqn:E.
  - destruct (eqb s (fallbackOf props)) eqn:Es; simpl.
    + apply eqb_eq in Es. subst s. destruct (onError props); simpl; exact E.
    + destruct (onError props); reflexivity.
  - destruct (onError props); simpl; exact E.
Qed.

(** After one or more load errors a string source has been replaced by the
    fallback, and stays the fallback; a statically imported source is never
    replaced. *)
Theorem errors_settle_on_fallback (n : nat) (props : Props) (st : State) :
  currentSrc (errors (S n) props st)
  = match currentSrc st with
    | StringSrc _ => StringSrc (fallbackOf props)
    | StaticImport path => StaticImport path
    end.
Proof.
  revert st. induction n as [|n IH]; intros st.
  - apply handleError_currentSrc.
  - change (errors (S (S n)) props st) with (errors (S n) props (handleError props st)).
    rewrite IH, handleError_currentSrc. destruct (currentSrc st); reflexivity.
Qed.

Lemma handleError_trace (props : Props) (st : State) :
  trace (handleError props st)
  = trace st
      ++ (match currentSrc st with
          | StringSrc s =>
              if eqb s (fallbackOf props) then [] else [SetCurrentSrc (fallbackOf props)]
          | StaticImport _ => []
          end)
      ++ (if onError props then [OnError] else []).
Proof.
  unfold handleError. destruct (currentSrc st) as [s|path].
  - destruct (eqb s (fallbackOf props)); simpl; destruct (onError props); simpl;
      rewrite <- ?app_assoc, ?app_nil_r; reflexivity.
  - destruct (onError props); simpl; rewrite ?app_nil_r; reflexivity.
Qed.

(** However many load errors follow one another, the component swaps its
    source at most once (the failing fallback is not set again), and the
    [onError] handler of the caller, when there is one, runs once per error. *)
Theorem errors_swap_once (n : nat) (props : Props) :
  let st := errors n props (initialState props) in
  length (filter isSetCurrentSrc (trace st)) <= 1
  /\ length (filter isOnError (trace st)) = if onError props then n else 0.
Proof.
  cbv zeta.
  assert (G : forall st,
             length (filter isSetCurrentSrc (trace (errors n props st)))
             <= length (filter isSetCurrentSrc (trace st))
                + match currentSrc st with
                  | StringSrc s => if eqb s (fallbackOf props) then 0 else 1
                  | StaticImport _ => 0
                  end
             /\ length (filter isOnError (trace (errors n props st)))
                = length (filter isOnError (trace st)) + if onError props then n else 0).
  { induction n as [|n IH]; intros st; simpl.
    - split; [lia | destruct (onError props); lia].
    - destruct (IH (handleError props st)) as [H1 H2].
      rewrite handleError_currentSrc, handleError_trace in H1.
      rewrite handleError_trace in H2.
      rewrite !filter_app, !length_app in H1, H2.
      destruct (currentSrc st) as [s|path].
      + rewrite eqb_refl in H1.
        destruct (eqb s (fallbackOf props)), (onError props); simpl in *; split; lia.
      + destruct (onError props); simpl in *; split; lia. }
  destruct (G (initialState props)) as [H1 H2]. simpl in H1, H2.
  split; [|exact H2].
  destruct (src props) as [s|path]; [destruct (eqb s (fallbackOf props))|]; lia.
Qed.

Section Loader.

Variable parseURL : jsstring -> option URL.
Variable URL_toString : URL -> jsstring.

(** The loader returns local paths, data: and blob: sources, and strings
    that do not parse as a URL, exactly as given, whatever the width and the
    quality. *)
Theorem loader_leaves_untouched (src : jsstring) (width : N) (quality : option N) :
  startsWith (lit "/") src || startsWith (lit "data:") src || startsWith (lit "blob:") src
    = true
  \/ parseURL src = None ->
  FALLBACK_AWARE_LOADER parseURL URL_toString src width quality = src.
Proof.
  unfold FALLBACK_AWARE_LOADER. intros [-> | Hp]; [reflexivity|].
  rewrite Hp. destruct (_ || _); reflexivity.
Qed.

(** With the default fallback, an image whose string source failed is from
    then on rendered from the inline SVG, which the loader passes through
    unchanged at every width and quality. *)
Theorem fallback_is_served_inline
  (n : nat) (props : Props) (s : jsstring) (width : N) (quality : option N) :
  fallbackSrc props = None ->
  src props = StringSrc s ->
  currentSrc (errors (S n) props (initialState props)) = StringSrc INLINE_FALLBACK_SVG
  /\ FALLBACK_AWARE_LOADER parseURL URL_toString INLINE_FALLBACK_SVG width quality
     = INLINE_FALLBACK_SVG.
Proof.
  intros Hf Hs. split.
  - rewrite errors_settle_on_fallback. simpl. rewrite Hs.
    unfold fallbackOf. now rewrite Hf.
  - unfold FALLBACK_AWARE_LOADER.
    replace (startsWith (lit "data:") INLINE_FALLBACK_SVG) with true
      by (vm_compute; reflexivity).
    rewrite orb_true_r. reflexivity.
Qed.

End Loader.

End ImageFacts.

(* ------------------------------------------------------------------ *)
(** ** The query the image loader writes *)
(* ------------------------------------------------------------------ *)
Section LoaderFacts.
Import JS Image.

Lemma eqb_sym (s t : jsstring) : eqb s t = eqb t s.
Proof.
  destruct (eqb s t) eqn:E.
  - apply eqb_eq in E. subst. symmetry. apply eqb_refl.
  - destruct (eqb t s) eqn:E'; [|reflexivity].
    apply eqb_eq in E'. subst. now rewrite eqb_refl in E.
Qed.

Lemma get_without (k n : jsstring) (l : URLSearchParams) :
  eqb k n = false ->
  get k (filter (fun kv => negb (eqb n (fst kv))) l) = get k l.
Proof.
  intros Hkn. induction l as [|[k0 v0] l IH]; simpl; [reflexivity|].
  destruct (eqb n k0) eqn:E; simpl.
  - apply eqb_eq in E. subst k0. now rewrite Hkn.
  - now rewrite IH.
Qed.

Lemma params_get_set (k n v : jsstring) (l : URLSearchParams) :
  get k (set n v l) = if eqb k n then Some v else get k l.
Proof.
  induction l as [|[k0 v0] l IH]; simpl; [reflexivity|].
  destruct (eqb n k0) eqn:E; simpl.
  - apply eqb_eq in E. subst k0.
    destruct (eqb k n) eqn:Ek; [reflexivity|]. now apply get_without.
  - rewrite IH. destruct (eqb k k0) eqn:Ek0; [|reflexivity].
    apply eqb_eq in Ek0. subst k0. now rewrite (eqb_sym k n), E.
Qed.

Lemma has_get (n : jsstring) (l : URLSearchParams) :
  has n l = match get n l with Some _ => true | None => false end.
Proof.
  unfold has. induction l as [|[k0 v0] l IH]; simpl; [reflexivity|].
  destruct (eqb n k0); simpl; [reflexivity | exact IH].
Qed.

Lemma occurrences_without (n : jsstring) (l : URLSearchParams) :
  occurrences n (filter (fun kv => negb (eqb n (fst kv))) l) = 0.
Proof.
  unfold occurrences. induction l as [|[k0 v0] l IH]; simpl; [reflexivity|].
  destruct (eqb n k0) eqn:E; simpl; [exact IH|]. now rewrite E.
Qed.

Lemma occurrences_set_same (n v : jsstring) (l : URLSearchParams) :
  occurrences n (set n v l) = 1.
Proof.
  induction l as [|[k0 v0] l IH]; unfold occurrences in *; simpl.
  - now rewrite eqb_refl.
  - destruct (eqb n k0) eqn:E; simpl; rewrite E; simpl.
    + f_equal. apply occurrences_without.
    + exact IH.
Qed.

Lemma occurrences_set_other (k n v : jsstring) (l : URLSearchParams) :
  eqb k n = false -> occurrences k (set n v l) = occurrences k l.
Proof.
  intros Hkn. unfold occurrences.
  induction l as [|[k0 v0] l IH]; simpl.
  - now rewrite Hkn.
  - destruct (eqb n k0) eqn:E; simpl.
    + apply eqb_eq in E. subst k0. rewrite Hkn. clear IH.
      induction l as [|[k1 v1] l IH]; simpl; [reflexivity|].
      destruct (eqb n k1) eqn:E1; simpl.
      * apply eqb_eq in E1. subst k1. now rewrite Hkn.
      * destruct (eqb k k1); simpl; now rewrite IH.
    + destruct (eqb k k0); simpl; now rewrite IH.
Qed.

Section Loader.

Variable parseURL : jsstring -> option URL.
Variable URL_toString : URL -> jsstring.

(** For a source that is not local, data: or blob: and that parses as a URL,
    the loader serialises that URL with its query edited and nothing else
    changed: [w] is the width, once, replacing any [w] there was; [auto]
    keeps its value if it had one and is "format" otherwise; [q] is the
    quality when one is given and is not 0, and is left as it was otherwise;
    every other parameter reads as before. *)
Theorem loader_edits_query
  (src : jsstring) (url : URL) (width : N) (quality : option N) :
  startsWith (lit "/") src || startsWith (lit "data:") src || startsWith (lit "blob:") src
    = false ->
  parseURL src = Some url ->
  exists url',
    FALLBACK_AWARE_LOADER parseURL URL_toString src width quality = URL_toString url'
    /\ beforeQuery url' = beforeQuery url
    /\ fragment url' = fragment url
    /\ occurrences (lit "w") (searchParams url') = 1
    /\ forall k,
         get k (searchParams url')
         = if eqb k (lit "q") then
             match quality with
             | Some q => if N.eqb q 0 then get k (searchParams url)
                         else Some (Number_toString q)
             | None => get k (searchParams url)
             end
           else if eqb k (lit "auto") then
             Some match get k (searchParams url) with
                  | Some a => a
                  | None => lit "format"
                  end
           else if eqb k (lit "w") then Some (Number_toString width)
           else get k (searchParams url).
Proof.
  intros Hlocal Hparse. exists (withLoaderParams url width quality).
  unfold FALLBACK_AWARE_LOADER. rewrite Hlocal, Hparse.
  split; [reflexivity|]. split; [reflexivity|]. split; [reflexivity|].
  unfold withLoaderParams. cbn [searchParams].
  set (p1 := set (lit "w") (Number_toString width) (searchParams url)).
  set (p2 := if negb (has (lit "auto") p1) then set (lit "auto") (lit "format") p1 else p1).
  assert (W2 : occurrences (lit "w") p2 = 1).
  { unfold p2. destruct (negb (has (lit "auto") p1)).
    - rewrite occurrences_set_other by reflexivity. apply occurrences_set_same.
    - apply occurrences_set_same. }
  assert (G2 : forall k, get k p2
                = if eqb k (lit "auto") then
                    Some match get k (searchParams url) with
                         | Some a => a
                         | None => lit "format"
                         end
                  else if eqb k (lit "w") then Some (Number_toString width)
                  else get k (searchParams url)).
  { intros k. unfold p2. rewrite has_get.
    destruct (eqb k (lit "auto")) eqn:Ea.
    - apply eqb_eq in Ea. subst k.
      assert (E1 : get (lit "auto") p1 = get (lit "auto") (searchParams url))
        by (unfold p1; rewrite params_get_set; reflexivity).
      rewrite E1. destruct (get (lit "auto") (searchParams url)) as [a|] eqn:Eg; simpl.
      + now rewrite E1.
      + rewrite params_get_set. reflexivity.
    - destruct (get (lit "auto") p1); simpl.
      + unfold p1. now rewrite params_get_set.
      + rewrite params_get_set, Ea. unfold p1. now rewrite params_get_set. }
  split.
  - destruct quality as [q|]; [destruct (N.eqb q 0)|]; try exact W2.
    rewrite occurrences_set_other by reflexivity. exact W2.
  - intros k. destruct quality as [q|]; [destruct (N.eqb q 0)|].
    + rewrite G2. destruct (eqb k (lit "q")) eqn:Eq; [|reflexivity].
      apply eqb_eq in Eq. subst k. reflexivity.
    + rewrite params_get_set. destruct (eqb k (lit "q")); [reflexivity | apply G2].
    + rewrite G2. destruct (eqb k (lit "q")) eqn:Eq; [|reflexivity].
      apply eqb_eq in Eq. subst k. reflexivity.
Qed.

End Loader.

End LoaderFacts.

Lemma fallback_is_served_inline_witness :
  Image.currentSrc
    (Image.errors 1
       {| Image.fallbackSrc := None; Image.onError := false;
          Image.src := Image.StringSrc (JS.lit "https://images.example/missing.jpg") |}
       (Image.initialState
          {| Image.fallbackSrc := None; Image.onError := false;
             Image.src := Image.StringSrc (JS.lit "https://images.example/missing.jpg") |}))
  = Image.StringSrc Image.INLINE_FALLBACK_SVG.
Proof.
  apply (@fallback_is_served_inline (fun _ => None) (fun u => Image.beforeQuery u) 0
           {| Image.fallbackSrc := None; Image.onError := false;
              Image.src := Image.StringSrc (JS.lit "https://images.example/missing.jpg") |}
           (JS.lit "https://images.example/missing.jpg") 640%N None eq_refl eq_refl).
Defined.

Lemma loader_edits_query_witness :
  exists url',
    Image.FALLBACK_AWARE_LOADER
      (fun _ => Some {| Image.beforeQuery := JS.lit "https://images.unsplash.com/photo-1";
                        Image.searchParams := [(JS.lit "w", JS.lit "800");
                                               (JS.lit "h", JS.lit "600");
                                               (JS.lit "fit", JS.lit "crop")];
                        Image.fragment := [] |})
      (fun u => Image.beforeQuery u)
      (JS.lit "https://images.unsplash.com/photo-1?w=800&h=600&fit=crop") 1080 (Some 75%N)
    = Image.beforeQuery url'
    /\ Image.get (JS.lit "w") (Image.searchParams url') = Some (JS.lit "1080")
    /\ Image.get (JS.lit "h") (Image.searchParams url') = Some (JS.lit "600")
    /\ Image.get (JS.lit "auto") (Image.searchParams url') = Some (JS.lit "format")
    /\ Image.get (JS.lit "q") (Image.searchParams url') = Some (JS.lit "75").
Proof.
  destruct (@loader_edits_query
              (fun _ => Some {| Image.beforeQuery := JS.lit "https://images.unsplash.com/photo-1";
                                Image.searchParams := [(JS.lit "w", JS.lit "800");
                                                       (JS.lit "h", JS.lit "600");
                                                       (JS.lit "fit", JS.lit "crop")];
                                Image.fragment := [] |})
              (fun u => Image.beforeQuery u)
              (JS.lit "https://images.unsplash.com/photo-1?w=800&h=600&fit=crop")
              {| Image.beforeQuery := JS.lit "https://images.unsplash.com/photo-1";
                 Image.searchParams := [(JS.lit "w", JS.lit "800");
                                        (JS.lit "h", JS.lit "600");
                                        (JS.lit "fit", JS.lit "crop")];
                 Image.fragment := [] |}
              1080%N (Some 75%N) eq_refl eq_refl)
    as (url' & Hl & _ & _ & _ & Hget).
  exists url'. split; [exact Hl|].
  rewrite !Hget. repeat split.
Defined.
